(** * Saved-data replay sampling backend of quri-parts' Qiskit adapter

    A shallow embedding of
    [packages/qiskit/quri_parts/qiskit/backend/job_models.py]:
    the saved result and job records, the replay backend with its corpus
    ([_saved_data]) and its cursor table ([_replay_memory]), the loader
    [_load_data] and the exporter [convert_saved_jobs_sequence_to_str].

    Python dictionaries that are only looked up and updated by key are
    finite maps ([gmap]); the histogram [raw_data], whose iteration order
    decides which entry wins in [counts], is an insertion-ordered
    association list.  Python integers are [Z].  Exceptions are values of
    [exception]; a method that mutates [self] returns the new [self]
    together with its outcome, also when it raises. *)

From Stdlib Require Import ZArith String Ascii List Lia.
From Stdlib Require Import Decimal DecimalString DecimalFacts DecimalPos DecimalZ.
From stdpp Require Import base option list gmap strings fin_maps.

Local Open Scope Z_scope.

(** ** Exceptions *)

(** The exceptions the module can raise.  [KeyErrorAt k] is the
    [KeyError(k)] of a failed subscript [d[k]]; [InvalidLiteral s] is the
    [ValueError] of [int(s, 2)] on a malformed literal. *)
Inductive exception : Type :=
  | ValueError (msg : string)
  | InvalidLiteral (literal : string)
  | KeyError (msg : string)
  | KeyErrorAt (key : string * Z)
  | TypeError (msg : string)
  | BackendError (msg : string).

(** The error kinds under the names the specification gives them. *)
Definition InvalidArgument : exception :=
  ValueError "n_shots should be a positive integer.".
Definition ReplayExhaustedError : exception :=
  ValueError "Replay of this experiment is over".
Definition MissingExperimentError : exception :=
  KeyError "This experiment is not in the saved data.".
Definition UnsupportedBackendError : exception :=
  BackendError "Backend not supported.".

(** ** The builtin [int(s, 2)]

    Strings are sequences of code points below 256.  Leading and trailing
    white space is skipped, then an optional sign, an optional [0b]/[0B]
    prefix (after which one underscore may follow), then binary digits
    separated by single underscores. *)
Module PyInt.

Definition is_space (c : ascii) : bool :=
  let n := N_of_ascii c in
  ((9 <=? n) && (n <=? 13) || (n =? 32) || (n =? 133) || (n =? 160))%N.

Fixpoint skip_spaces (s : string) : string :=
  match s with
  | String c s' => if is_space c then skip_spaces s' else s
  | EmptyString => s
  end.

Definition all_spaces (s : string) : bool :=
  match skip_spaces s with EmptyString => true | _ => false end.

(** The sign, and the rest of the literal. *)
Definition take_sign (s : string) : Z * string :=
  match s with
  | String "+" s' => (1, s')
  | String "-" s' => (-1, s')
  | _ => (1, s)
  end.

Definition take_prefix (s : string) : string :=
  match s with
  | String "0" (String "b" s') | String "0" (String "B" s') =>
      match s' with
      | String "_" s'' => s''
      | _ => s'
      end
  | _ => s
  end.

(** The digit scan of the literal: [acc] is the value read so far,
    [digits] says that a digit was read, [prev_us] that the previous
    character was an underscore.  The scan stops at the first character
    that is neither a binary digit nor an underscore and hands back the
    rest, or fails on a doubled or trailing underscore. *)
Fixpoint scan (s : string) (acc : Z) (digits prev_us : bool)
  : option (Z * bool * string) :=
  match s with
  | String "0" s' => scan s' (2 * acc) true false
  | String "1" s' => scan s' (2 * acc + 1) true false
  | String "_" s' => if prev_us then None else scan s' acc digits true
  | _ => if prev_us then None else Some (acc, digits, s)
  end.

Definition int_base2 (s : string) : option Z :=
  let '(sign, s1) := take_sign (skip_spaces s) in
  let s2 := take_prefix s1 in
  match s2 with
  | String "_" _ => None
  | _ =>
      match scan s2 0 false false with
      | Some (v, true, rest) => if all_spaces rest then Some (sign * v) else None
      | _ => None
      end
  end.

End PyInt.

Definition int_base2 (s : string) : exception + Z :=
  match PyInt.int_base2 s with
  | Some z => inr z
  | None => inl (InvalidLiteral s)
  end.

(** ** Saved results and jobs *)

(** [SamplingCounts]: outcome (as an integer) to number of occurrences. *)
Abbreviation SamplingCounts := (gmap Z Z).

Record QiskitSavedDataSamplingResult : Type := {
  raw_data : list (string * Z)
}.

(** The [counts] property: every key of [raw_data], in iteration order, is
    read in base 2 and assigned its count; a later assignment to the same
    integer replaces an earlier one. *)
Fixpoint counts_loop (items : list (string * Z)) (measurements : SamplingCounts)
  : exception + SamplingCounts :=
  match items with
  | [] => inr measurements
  | (result, n) :: items' =>
      match int_base2 result with
      | inl e => inl e
      | inr k => counts_loop items' (<[k := n]> measurements)
      end
  end.

Definition counts (self : QiskitSavedDataSamplingResult)
  : exception + SamplingCounts :=
  counts_loop (raw_data self) ∅.

Record QiskitSavedDataSamplingJob : Type := {
  circuit_str : string;
  n_shots : Z;
  saved_result : QiskitSavedDataSamplingResult
}.

Definition result (self : QiskitSavedDataSamplingJob)
  : QiskitSavedDataSamplingResult :=
  saved_result self.

(** ** The corpus *)

(** [SavedDataType]: the records of the corpus grouped by their key
    [(circuit_str, n_shots)], each group in the order of the document. *)
Abbreviation SavedDataType := (gmap (string * Z) (list QiskitSavedDataSamplingJob)).

Definition job_key (job : QiskitSavedDataSamplingJob) : string * Z :=
  (circuit_str job, n_shots job).

(** A corpus document as [json.loads] hands it over: the array of record
    objects of the exchange format, each with the fields [circuit_str],
    [n_shots] and [saved_result] that the dataclass constructor takes, or
    the empty object.  The text of a document is read by [loads_document]
    and printed by [convert_saved_jobs_sequence_to_str] below. *)
Inductive json_document : Type :=
  | JsonArray (records : list QiskitSavedDataSamplingJob)
  | JsonEmptyObject.

(** What [for job_dict in saved_data_seq] iterates over. *)
Definition job_dicts (saved_data_seq : json_document)
  : list QiskitSavedDataSamplingJob :=
  match saved_data_seq with
  | JsonArray records => records
  | JsonEmptyObject => []
  end.

(** [saved_data[(circuit_str, n_shots)].append(job)] on a
    [defaultdict(list)]. *)
Definition append_job (saved_data : SavedDataType)
    (job : QiskitSavedDataSamplingJob) : SavedDataType :=
  <[job_key job := (saved_data !!! job_key job) ++ [job]]> saved_data.

Definition _load_data (json_str : json_document) : SavedDataType :=
  foldl append_job ∅ (job_dicts json_str).

(** ** The text of a corpus document

    [json.dumps] and [json.loads] on the values of the exchange format:
    strings of code points below 256, integers, dictionaries with string
    keys, and lists.  A dictionary is the list of its items in insertion
    order.  Integers are unbounded: the bound that CPython can be
    configured to put on the digits of an integer literal is left out. *)
Module Json.

Local Open Scope string_scope.

Definition quote : ascii := "034".
Definition backslash : ascii := "092".

(** *** Printing *)

Definition hex_digit (n : N) : ascii :=
  ascii_of_N (if (n <? 10)%N then 48 + n else 87 + n).

(** A character inside a string: the short escapes, the character
    itself from the space to the tilde, and the escape by code point for
    every other one ([ensure_ascii] is on). *)
Definition escape_char (c : ascii) : string :=
  match c with
  | "034"%char => String backslash (String quote EmptyString)
  | "092"%char => String backslash (String backslash EmptyString)
  | "008"%char => String backslash "b"
  | "012"%char => String backslash "f"
  | "010"%char => String backslash "n"
  | "013"%char => String backslash "r"
  | "009"%char => String backslash "t"
  | _ =>
      let n := N_of_ascii c in
      if ((32 <=? n) && (n <=? 126))%N then String c EmptyString
      else String backslash (String "u" (String "0" (String "0"
             (String (hex_digit (n / 16))
                (String (hex_digit (n mod 16)) EmptyString)))))
  end.

Fixpoint escape (s : string) : string :=
  match s with
  | EmptyString => EmptyString
  | String c s' => escape_char c ++ escape s'
  end.

Definition dumps_str (s : string) : string :=
  String quote (escape s ++ String quote EmptyString).

Definition dumps_int (n : Z) : string :=
  NilZero.string_of_int (Z.to_int n).

(** [sep.join(parts)]. *)
Fixpoint join (sep : string) (parts : list string) : string :=
  match parts with
  | [] => EmptyString
  | part :: parts' =>
      match parts' with
      | [] => part
      | _ => part ++ sep ++ join sep parts'
      end
  end.

Definition dumps_item {V : Type} (dumps_value : V -> string)
    (item : string * V) : string :=
  dumps_str item.1 ++ ": " ++ dumps_value item.2.

Definition dumps_dict {V : Type} (dumps_value : V -> string)
    (d : list (string * V)) : string :=
  "{" ++ join ", " (dumps_item dumps_value <$> d) ++ "}".

Definition dumps_list {A : Type} (dumps_value : A -> string)
    (l : list A) : string :=
  "[" ++ join ", " (dumps_value <$> l) ++ "]".

(** *** Reading *)

Definition is_whitespace (c : ascii) : bool :=
  match c with
  | " "%char | "009"%char | "010"%char | "013"%char => true
  | _ => false
  end.

Fixpoint skip_whitespace (s : string) : string :=
  match s with
  | String c s' => if is_whitespace c then skip_whitespace s' else s
  | EmptyString => s
  end.

Definition hex_value (c : ascii) : option N :=
  let n := N_of_ascii c in
  if ((48 <=? n) && (n <=? 57))%N then Some (n - 48)%N
  else if ((97 <=? n) && (n <=? 102))%N then Some (n - 87)%N
  else if ((65 <=? n) && (n <=? 70))%N then Some (n - 55)%N
  else None.

Definition unescape (c : ascii) : option ascii :=
  match c with
  | "034"%char => Some "034"%char
  | "092"%char => Some "092"%char
  | "/"%char => Some "/"%char
  | "b"%char => Some "008"%char
  | "f"%char => Some "012"%char
  | "n"%char => Some "010"%char
  | "r"%char => Some "013"%char
  | "t"%char => Some "009"%char
  | _ => None
  end.

Definition with_char (c : ascii) (scanned : option (string * string))
  : option (string * string) :=
  match scanned with
  | Some (s, rest) => Some (String c s, rest)
  | None => None
  end.

(** The characters of a string after its opening quote, up to the
    closing one, and what follows it.  A control character must be
    escaped; an escape by code point of 256 or more has no place in the
    strings of this development and is refused. *)
Fixpoint scan_string (s : string) : option (string * string) :=
  match s with
  | EmptyString => None
  | String c s' =>
      if Ascii.eqb c quote then Some (EmptyString, s')
      else if Ascii.eqb c backslash then
        match s' with
        | EmptyString => None
        | String e s'' =>
            if Ascii.eqb e "u" then
              match s'' with
              | String h1 (String h2 (String h3 (String h4 s4))) =>
                  match hex_value h1, hex_value h2, hex_value h3, hex_value h4 with
                  | Some a, Some b, Some c', Some d =>
                      let n := (((a * 16 + b) * 16 + c') * 16 + d)%N in
                      if (n <? 256)%N then with_char (ascii_of_N n) (scan_string s4)
                      else None
                  | _, _, _, _ => None
                  end
              | _ => None
              end
            else
              match unescape e with
              | Some c' => with_char c' (scan_string s'')
              | None => None
              end
        end
      else if (N_of_ascii c <? 32)%N then None
      else with_char c (scan_string s')
  end.

Definition loads_str (s : string) : option (string * string) :=
  match s with
  | String c s' => if Ascii.eqb c quote then scan_string s' else None
  | EmptyString => None
  end.

(** The longest prefix of decimal digits, and what follows it. *)
Fixpoint scan_digits (s : string) : Decimal.uint * string :=
  match s with
  | String "0" s' => let (d, rest) := scan_digits s' in (D0 d, rest)
  | String "1" s' => let (d, rest) := scan_digits s' in (D1 d, rest)
  | String "2" s' => let (d, rest) := scan_digits s' in (D2 d, rest)
  | String "3" s' => let (d, rest) := scan_digits s' in (D3 d, rest)
  | String "4" s' => let (d, rest) := scan_digits s' in (D4 d, rest)
  | String "5" s' => let (d, rest) := scan_digits s' in (D5 d, rest)
  | String "6" s' => let (d, rest) := scan_digits s' in (D6 d, rest)
  | String "7" s' => let (d, rest) := scan_digits s' in (D7 d, rest)
  | String "8" s' => let (d, rest) := scan_digits s' in (D8 d, rest)
  | String "9" s' => let (d, rest) := scan_digits s' in (D9 d, rest)
  | _ => (Nil, s)
  end.

(** Whether what follows the digits makes the number a float or keeps it
    from being a number. *)
Definition continues_number (rest : string) : bool :=
  match rest with
  | String "."%char _ | String "e"%char _ | String "E"%char _ => true
  | _ => false
  end.

(** The digits of an integer: 0, or digits that do not start with 0.  A
    number with a fraction or an exponent is a float, which is not a
    value of the exchange format, and is refused. *)
Definition scan_int (negative : bool) (s : string) : option (Z * string) :=
  let '(d, rest) := scan_digits s in
  let leading_zero :=
    match d with
    | D0 Nil => false
    | D0 _ => true
    | _ => false
    end in
  match d with
  | Nil => None
  | _ =>
      if leading_zero || continues_number rest then None
      else Some (Z.of_int (if negative then Neg d else Pos d), rest)
  end.

(** An integer: an optional minus sign, then the digits. *)
Definition loads_int (s : string) : option (Z * string) :=
  match s with
  | String "-"%char s' => scan_int true s'
  | _ => scan_int false s
  end.

(** The values of a list or a dictionary from the first one on, separated
    by commas, up to the closing bracket. *)
Fixpoint scan_items {A : Type} (value : string -> option (A * string))
    (close : ascii) (fuel : nat) (s : string) : option (list A * string) :=
  match fuel with
  | O => None
  | S fuel' =>
      match value s with
      | None => None
      | Some (x, s1) =>
          match skip_whitespace s1 with
          | EmptyString => None
          | String c s2 =>
              if Ascii.eqb c close then Some ([x], s2)
              else if Ascii.eqb c "," then
                match scan_items value close fuel' (skip_whitespace s2) with
                | Some (xs, rest) => Some (x :: xs, rest)
                | None => None
                end
              else None
          end
      end
  end.

(** What follows an opening bracket: the closing bracket, or values. *)
Definition scan_sequence {A : Type} (value : string -> option (A * string))
    (close : ascii) (s : string) : option (list A * string) :=
  match skip_whitespace s with
  | EmptyString => None
  | String c s' =>
      if Ascii.eqb c close then Some ([], s')
      else scan_items value close (String.length s) (String c s')
  end.

(** [d[k] = v] on a dictionary: a key that is present keeps its place. *)
Fixpoint dict_set {V : Type} (d : list (string * V)) (k : string) (v : V)
  : list (string * V) :=
  match d with
  | [] => [(k, v)]
  | (k', v') :: d' =>
      if String.eqb k' k then (k', v) :: d' else (k', v') :: dict_set d' k v
  end.

Definition dict_of_pairs {V : Type} (pairs : list (string * V))
  : list (string * V) :=
  foldl (fun d item => dict_set d item.1 item.2) [] pairs.

Fixpoint dict_get {V : Type} (d : list (string * V)) (k : string) : option V :=
  match d with
  | [] => None
  | (k', v) :: d' => if String.eqb k' k then Some v else dict_get d' k
  end.

(** One item of an object: the key, a colon, and the value that the
    schema expects under that key. *)
Definition loads_item {V : Type} (value : string -> string -> option (V * string))
    (s : string) : option ((string * V) * string) :=
  match loads_str s with
  | None => None
  | Some (k, s1) =>
      match skip_whitespace s1 with
      | String ":"%char s2 =>
          match value k (skip_whitespace s2) with
          | Some (v, rest) => Some ((k, v), rest)
          | None => None
          end
      | _ => None
      end
  end.

(** An object is read into a dictionary: of two items with the same key
    the later value is kept, at the place of the earlier. *)
Definition loads_dict {V : Type} (value : string -> string -> option (V * string))
    (s : string) : option (list (string * V) * string) :=
  match s with
  | String "{"%char s' =>
      match scan_sequence (loads_item value) "}" s' with
      | Some (pairs, rest) => Some (dict_of_pairs pairs, rest)
      | None => None
      end
  | _ => None
  end.

Definition loads_list {A : Type} (value : string -> option (A * string))
    (s : string) : option (list A * string) :=
  match s with
  | String "["%char s' => scan_sequence value "]" s'
  | _ => None
  end.

Definition at_end (s : string) : bool :=
  match skip_whitespace s with
  | EmptyString => true
  | _ => false
  end.

(** *** Vocabulary of the statements on texts *)

(** A text that starts a key or a value of the exchange format where a
    list or a dictionary expects one: with a quote or an opening brace. *)
Definition starts_value (s : string) : Prop :=
  exists c s', s = String c s' /\ (c = quote \/ c = "{"%char).

(** A text that ends a value inside a list or a dictionary. *)
Definition delimited (s : string) : Prop :=
  exists c s', s = String c s' /\ (c = ","%char \/ c = "}"%char \/ c = "]"%char).

(** A text that does not start with white space. *)
Definition starts_black (s : string) : Prop :=
  exists c s', s = String c s' /\ is_whitespace c = false.

End Json.

(** The fields of a saved job as a dictionary ([dataclasses.asdict], which
    [pydantic_encoder] applies to a dataclass instance), and the values
    they take. *)
Inductive field_value : Type :=
  | StrValue (s : string)
  | IntValue (n : Z)
  | ResultValue (fields : list (string * list (string * Z))).

Definition asdict (job : QiskitSavedDataSamplingJob) : list (string * field_value) :=
  [("circuit_str", StrValue (circuit_str job));
   ("n_shots", IntValue (n_shots job));
   ("saved_result", ResultValue [("raw_data", raw_data (saved_result job))])]%string.

Definition dumps_field (v : field_value) : string :=
  match v with
  | StrValue s => Json.dumps_str s
  | IntValue n => Json.dumps_int n
  | ResultValue fields => Json.dumps_dict (Json.dumps_dict Json.dumps_int) fields
  end.

Definition dumps_job (job : QiskitSavedDataSamplingJob) : string :=
  Json.dumps_dict dumps_field (asdict job).

(** [json.dumps(saved_data_seq, default=pydantic_encoder)]. *)
Definition convert_saved_jobs_sequence_to_str
    (saved_data_seq : list QiskitSavedDataSamplingJob) : string :=
  Json.dumps_list dumps_job saved_data_seq.

Definition with_value {A B : Type} (f : A -> B) (scanned : option (A * string))
  : option (B * string) :=
  match scanned with
  | Some (x, rest) => Some (f x, rest)
  | None => None
  end.

(** The value of a field of the exchange format, by the name of the
    field: a string, an integer, or the object of the saved result with
    its histogram.  A field of another name, and a value of another JSON
    type than the field's, which the validation of the dataclass may
    convert or refuse, are outside the exchange format and refused. *)
Definition loads_result_field (name : string) (s : string)
  : option (list (string * Z) * string) :=
  if String.eqb name "raw_data" then Json.loads_dict (fun _ => Json.loads_int) s
  else None.

Definition loads_field (name : string) (s : string)
  : option (field_value * string) :=
  if String.eqb name "circuit_str" then with_value StrValue (Json.loads_str s)
  else if String.eqb name "n_shots" then with_value IntValue (Json.loads_int s)
  else if String.eqb name "saved_result" then
    with_value ResultValue (Json.loads_dict loads_result_field s)
  else None.

(** The constructor [QiskitSavedDataSamplingJob] applied to the items of
    [job_dict] as keyword arguments: every field is required. *)
Definition make_job (job_dict : list (string * field_value))
  : option QiskitSavedDataSamplingJob :=
  match Json.dict_get job_dict "circuit_str",
        Json.dict_get job_dict "n_shots",
        Json.dict_get job_dict "saved_result" with
  | Some (StrValue c), Some (IntValue n), Some (ResultValue fields) =>
      match Json.dict_get fields "raw_data" with
      | Some histogram =>
          Some {| circuit_str := c; n_shots := n;
                  saved_result := {| raw_data := histogram |} |}
      | None => None
      end
  | _, _, _ => None
  end.

Definition loads_job (s : string) : option (QiskitSavedDataSamplingJob * string) :=
  match Json.loads_dict loads_field s with
  | Some (job_dict, rest) =>
      match make_job job_dict with
      | Some job => Some (job, rest)
      | None => None
      end
  | None => None
  end.

(** [json.loads(json_str)] on a document of the exchange format, each
    object of the array made a saved job as the loop of [_load_data]
    does.  [None] when the text is not such a document: when it is no
    JSON, so that [json.loads] raises; when an element of the array lacks
    a field, so that the constructor raises; and when it is JSON outside
    the exchange format.  Of the documents that are no array, only the
    empty object is taken, over which the loop does not iterate. *)
Definition loads_document (json_str : string) : option json_document :=
  let s := Json.skip_whitespace json_str in
  match s with
  | String "["%char _ =>
      match Json.loads_list loads_job s with
      | Some (jobs, rest) => if Json.at_end rest then Some (JsonArray jobs) else None
      | None => None
      end
  | String "{"%char s' =>
      match Json.skip_whitespace s' with
      | String "}"%char rest => if Json.at_end rest then Some JsonEmptyObject else None
      | _ => None
      end
  | _ => None
  end.

(** [_load_data] on the text of a document: [None] when the load
    raises or the text is outside the exchange format. *)
Definition _load_data_str (json_str : string) : option SavedDataType :=
  match loads_document json_str with
  | Some document => Some (_load_data document)
  | None => None
  end.


(** The histogram of a saved job is a dictionary: no key occurs twice. *)
Definition raw_data_is_dict (job : QiskitSavedDataSamplingJob) : Prop :=
  NoDup (raw_data (saved_result job)).*1.

(** What a field of a job dictionary holds under the saved result: only
    dictionaries. *)
Definition field_holds_dicts (v : field_value) : Prop :=
  match v with
  | ResultValue fields => Forall (fun histogram => NoDup histogram.*1) fields.*2
  | _ => True
  end.

(** The records of a corpus listed key by key, each key's records in
    their recorded order: the sequence an export of the corpus itself
    would have to be given. *)
Definition corpus_records (saved_data : SavedDataType)
  : list QiskitSavedDataSamplingJob :=
  concat (map_to_list saved_data).*2.

(** ** Collaborators from the rest of the package *)

(** Modelled from the spec: [BackendQubitMapping] (quri_parts.backend) is
    not part of this module.  It holds the optional permutation from
    logical to physical qubit index, here as pairs (logical, physical). *)
Record BackendQubitMapping : Type := {
  mapping : list (Z * Z)
}.

(** Modelled from the spec: the inverse qubit mapping applied to one
    outcome, each bit moved from its physical back to its logical
    position. *)
Definition unmap_bits (qm : BackendQubitMapping) (bits : Z) : Z :=
  foldr (fun '(q, b) acc => Z.lor acc (Z.shiftl (Z.land (Z.shiftr bits b) 1) q))
        0 (mapping qm).

(** Modelled from the spec: the count of an outcome added to what the
    histogram already holds for it. *)
Definition add_count (k n : Z) (m : SamplingCounts) : SamplingCounts :=
  <[k := default 0 (m !! k) + n]> m.

(** Modelled from the spec: the inverse qubit mapping applied to every
    outcome of a histogram (part of [BackendQubitMapping], which is not in
    this module). *)
Definition unmap_sampling_counts (qm : BackendQubitMapping) (m : SamplingCounts)
  : SamplingCounts :=
  map_fold (fun k n acc => add_count (unmap_bits qm k) n acc) ∅ m.

(** Modelled from the spec: merging the histograms of the chunks, the
    counts of one outcome summed across chunks. *)
Definition merge_counts (a b : SamplingCounts) : SamplingCounts :=
  union_with (fun x y => Some (x + y)) a b.

(** Modelled from the spec: the job that [job_processor] (backend/utils,
    not part of this module) returns.  It keeps the consumed records and
    the qubit mapping; its histogram is computed when the result is asked
    for. *)
Record SamplingJob : Type := {
  chunk_jobs : list QiskitSavedDataSamplingJob;
  job_qubit_mapping : option BackendQubitMapping
}.

(** Modelled from the spec: [job_processor] (backend/utils, not part of
    this module) makes one job of the consumed records and the qubit
    mapping. *)
Definition job_processor (jobs : list QiskitSavedDataSamplingJob)
    (qubit_mapping : option BackendQubitMapping) : SamplingJob :=
  {| chunk_jobs := jobs; job_qubit_mapping := qubit_mapping |}.

(** Modelled from the spec: the histograms of the chunks of a processed
    job merged in order (part of the job [job_processor] returns); the
    first record whose histogram cannot be read raises. *)
Fixpoint merged_counts (jobs : list QiskitSavedDataSamplingJob)
  : exception + SamplingCounts :=
  match jobs with
  | [] => inr ∅
  | job :: jobs' =>
      match counts (result job) with
      | inl e => inl e
      | inr c =>
          match merged_counts jobs' with
          | inl e => inl e
          | inr cs => inr (merge_counts c cs)
          end
      end
  end.

(** Modelled from the spec: [job.result().counts] of the job that
    [job_processor] returns, the merged histogram with the inverse qubit
    mapping applied if one was configured. *)
Definition result_counts (job : SamplingJob) : exception + SamplingCounts :=
  match merged_counts (chunk_jobs job) with
  | inl e => inl e
  | inr c =>
      match job_qubit_mapping job with
      | Some qm => inr (unmap_sampling_counts qm c)
      | None => inr c
      end
  end.

(** The total of a histogram. *)
Definition total_counts (m : SamplingCounts) : Z :=
  map_fold (fun _ n acc => n + acc) 0 m.

Definition total_raw (items : list (string * Z)) : Z :=
  foldr (fun kv acc => kv.2 + acc) 0 items.

(** ** The backend *)

(** The hardware descriptor, by the two interfaces the constructor
    recognises, each with the shot limit the device reports.  Of the
    older one the constructor reads [configuration().max_shots]; of the
    newer one it reads nothing, whether the device reports a limit or
    not. *)
Inductive Backend : Type :=
  | BackendV1 (max_shots : Z)
  | BackendV2 (max_shots : option Z)
  | OtherBackend.

(** The attributes of the backend that [sample] uses.  The converter, the
    transpiler and the run arguments only feed the conversion of the
    circuit, which is a parameter of the development below. *)
Record QiskitSavedDataSamplingBackend : Type := {
  _backend : Backend;
  _qubit_mapping : option BackendQubitMapping;
  _enable_shots_roundup : bool;
  _min_shots : Z;
  _max_shots : option Z;
  _saved_data : SavedDataType;
  _replay_memory : gmap (string * Z) Z
}.

Definition set_replay_memory (self : QiskitSavedDataSamplingBackend)
    (replay_memory : gmap (string * Z) Z) : QiskitSavedDataSamplingBackend :=
  {| _backend := _backend self;
     _qubit_mapping := _qubit_mapping self;
     _enable_shots_roundup := _enable_shots_roundup self;
     _min_shots := _min_shots self;
     _max_shots := _max_shots self;
     _saved_data := _saved_data self;
     _replay_memory := replay_memory |}.

(** [l[i]] on a Python list: a negative index counts from the end. *)
Definition list_getitem {A : Type} (l : list A) (i : Z) : option A :=
  if 0 <=? i then l !! Z.to_nat i
  else if 0 <=? i + Z.of_nat (length l) then l !! Z.to_nat (i + Z.of_nat (length l))
  else None.

(** ** Sampling *)

(** The collaborators [sample] calls, none of them part of this module:
    the toolkit's circuits and Qiskit's; the conversion of a circuit with
    [measure_all] and [qiskit.transpile] for the configured backend and
    qubit mapping; the serialisation [qasm()] of the transpiled circuit;
    and [shot_distributer] of backend/utils.  The constructor calls
    one more: [make_qubit_mapping] stands for building the
    [BackendQubitMapping] of a given qubit mapping and the transpiler
    that goes with it (quri_parts.backend and quri_parts.circuit).  Each
    may raise. *)
Class Collaborators : Type := {
  NonParametricQuantumCircuit : Type;
  QuantumCircuit : Type;
  make_qubit_mapping : list (Z * Z) -> exception + BackendQubitMapping;
  transpile :
    Backend -> option BackendQubitMapping ->
    NonParametricQuantumCircuit -> exception + QuantumCircuit;
  qasm : QuantumCircuit -> exception + string;
  shot_distributer : Z -> Z -> option Z -> bool -> exception + list Z
}.

Section Sampling.

Context `{Collaborators}.

(** The constructor: the qubit mapping and the transpiler first, then
    the shot bounds, then the check of the descriptor, then the corpus
    and its cursors. *)
Definition __init__ (backend : Backend) (saved_data : json_document)
    (enable_shots_roundup : bool) (qubit_mapping : option (list (Z * Z)))
  : exception + QiskitSavedDataSamplingBackend :=
  match
    match qubit_mapping with
    | Some m =>
        match make_qubit_mapping m with
        | inl e => inl e
        | inr built => inr (Some built)
        end
    | None => inr None
    end
  with
  | inl e => inl e
  | inr _qubit_mapping =>
      let _min_shots := 1 in
      let _max_shots :=
        match backend with
        | BackendV1 max_shots => if 0 <? max_shots then Some max_shots else None
        | _ => None
        end in
      match backend with
      | OtherBackend => inl UnsupportedBackendError
      | _ =>
          let _saved_data := _load_data saved_data in
          inr {| _backend := backend;
                 _qubit_mapping := _qubit_mapping;
                 _enable_shots_roundup := enable_shots_roundup;
                 _min_shots := _min_shots;
                 _max_shots := _max_shots;
                 _saved_data := _saved_data;
                 _replay_memory := (fun _ => 0) <$> _saved_data |}
      end
  end.

(** The loop over the chunks of the shot distribution.  It ends with the
    exception raised, if any, the records appended to [jobs] so far and
    the cursor table as the loop left it. *)
Fixpoint sample_loop (saved_data : SavedDataType)
    (transpiled_circuit : QuantumCircuit) (shot_dist : list Z)
    (jobs : list QiskitSavedDataSamplingJob)
    (replay_memory : gmap (string * Z) Z)
  : option exception * list QiskitSavedDataSamplingJob * gmap (string * Z) Z :=
  match shot_dist with
  | [] => (None, jobs, replay_memory)
  | s :: shot_dist' =>
      match qasm transpiled_circuit with
      | inl e => (Some e, jobs, replay_memory)
      | inr qasm_str =>
          let key := (qasm_str, s) in
          match saved_data !! key with
          | Some records =>
              match replay_memory !! key with
              | None => (Some (KeyErrorAt key), jobs, replay_memory)
              | Some data_position =>
                  match list_getitem records data_position with
                  | Some job =>
                      sample_loop saved_data transpiled_circuit shot_dist'
                        (jobs ++ [job])
                        (<[key := data_position + 1]> replay_memory)
                  | None => (Some ReplayExhaustedError, jobs, replay_memory)
                  end
              end
          | None => (Some MissingExperimentError, jobs, replay_memory)
          end
      end
  end.

(** The state in which the body of [sample] ends: before the loop if the
    argument check, the shot distributor or the conversion raises, and
    where the loop ends otherwise. *)
Definition sample_body (self : QiskitSavedDataSamplingBackend)
    (circuit : NonParametricQuantumCircuit) (n_shots : Z)
  : option exception * list QiskitSavedDataSamplingJob * gmap (string * Z) Z :=
  if negb (n_shots >=? 1) then (Some InvalidArgument, [], _replay_memory self)
  else
    match shot_distributer n_shots (_min_shots self) (_max_shots self)
            (_enable_shots_roundup self) with
    | inl e => (Some e, [], _replay_memory self)
    | inr shot_dist =>
        match transpile (_backend self) (_qubit_mapping self) circuit with
        | inl e => (Some e, [], _replay_memory self)
        | inr transpiled_circuit =>
            sample_loop (_saved_data self) transpiled_circuit shot_dist []
              (_replay_memory self)
        end
    end.

(** [sample]: the job returned or the exception raised, and the backend
    after the call. *)
Definition sample (self : QiskitSavedDataSamplingBackend)
    (circuit : NonParametricQuantumCircuit) (n_shots : Z)
  : (exception + SamplingJob) * QiskitSavedDataSamplingBackend :=
  match sample_body self circuit n_shots with
  | (Some e, _, replay_memory) => (inl e, set_replay_memory self replay_memory)
  | (None, jobs, replay_memory) =>
      (inr (job_processor jobs (_qubit_mapping self)),
       set_replay_memory self replay_memory)
  end.

(** The records a call consumed, whether it then returned or raised. *)
Definition consumed (self : QiskitSavedDataSamplingBackend)
    (circuit : NonParametricQuantumCircuit) (n_shots : Z)
  : list QiskitSavedDataSamplingJob :=
  (sample_body self circuit n_shots).1.2.

(** A sequence of calls on one backend instance: the outcome of each
    call with the backend as that call left it. *)
Fixpoint run (self : QiskitSavedDataSamplingBackend)
    (calls : list (NonParametricQuantumCircuit * Z))
  : list ((exception + SamplingJob) * QiskitSavedDataSamplingBackend) :=
  match calls with
  | [] => []
  | (circuit, n) :: calls' =>
      let r := sample self circuit n in
      r :: run r.2 calls'
  end.

(** The backends an instance can become by calls of [sample]. *)
Inductive reachable (self0 : QiskitSavedDataSamplingBackend)
  : QiskitSavedDataSamplingBackend -> Prop :=
  | reachable_init : reachable self0 self0
  | reachable_sample self circuit n :
      reachable self0 self -> reachable self0 (sample self circuit n).2.

(** A call that asks for at least one shot, whose shots the
    distributor leaves in the single chunk [s] and whose circuit is
    converted to the canonical string [qasm_str]: it looks up the key
    [(qasm_str, s)] and no other. *)
Definition single_chunk_call (self : QiskitSavedDataSamplingBackend)
    (qasm_str : string) (s : Z) (call : NonParametricQuantumCircuit * Z) : Prop :=
  1 <= call.2 /\
  shot_distributer call.2 (_min_shots self) (_max_shots self)
    (_enable_shots_roundup self) = inr [s] /\
  exists tc, transpile (_backend self) (_qubit_mapping self) call.1 = inr tc /\
             qasm tc = inr qasm_str.

End Sampling.

(** ** A concrete setting

    Circuits stand for their canonical strings, and the shot distributor
    cuts a request above the maximum into chunks of the maximum and a
    remainder. *)
Module Scenario.

(** Modelled from the spec: [shot_distributer] (backend/utils) is not
    part of this module.  A request within the bounds is one chunk; a
    request above the maximum is split into chunks of the maximum and
    the remainder, which is rounded up to the minimum if the policy
    says so. *)
Definition distribute (n_shots min_shots : Z) (max_shots : option Z)
    (enable_shots_roundup : bool) : exception + list Z :=
  match max_shots with
  | Some mx =>
      if (0 <? mx) && (mx <? n_shots) then
        let remaining := n_shots mod mx in
        inr (replicate (Z.to_nat (n_shots / mx)) mx ++
             (if remaining =? 0 then []
              else if min_shots <=? remaining then [remaining]
              else if enable_shots_roundup then [min_shots] else []))
      else inr [Z.max n_shots min_shots]
  | None => inr [Z.max n_shots min_shots]
  end.

(** Modelled from the spec: the qubit mapping is a permutation from
    logical to physical qubit index; a mapping that is empty or names a
    qubit twice is refused. *)
Definition permutation_mapping (m : list (Z * Z)) : exception + BackendQubitMapping :=
  if bool_decide (m <> [] /\ NoDup m.*1 /\ NoDup m.*2)
  then inr {| mapping := m |}
  else inl (ValueError "qubit_mapping is not a permutation of qubits").

Definition env : Collaborators :=
  {| NonParametricQuantumCircuit := string;
     QuantumCircuit := string;
     make_qubit_mapping := permutation_mapping;
     transpile := fun _ _ circuit => inr circuit;
     qasm := fun transpiled_circuit => inr transpiled_circuit;
     shot_distributer := distribute |}.

Definition record (c : string) (n : Z) (histogram : list (string * Z))
  : QiskitSavedDataSamplingJob :=
  {| circuit_str := c; n_shots := n;
     saved_result := {| raw_data := histogram |} |}.

(** One record for ("abc", 100) with histogram {"000": 60, "111": 40}. *)
Definition abc100 : QiskitSavedDataSamplingJob :=
  record "abc" 100 [("000", 60); ("111", 40)]%string.

Definition document_abc : json_document := JsonArray [abc100].

(** A record of two qubits, all of its shots on the outcome "01". *)
Definition swapped01 : QiskitSavedDataSamplingJob :=
  record "abc" 100 [("01", 100)]%string.

Definition document_swapped : json_document := JsonArray [swapped01].

(** The backend of descriptor [BackendV1 100] over a document, with or
    without a qubit mapping. *)
Definition backend_with (doc : json_document) (qubit_mapping : option (list (Z * Z)))
  : QiskitSavedDataSamplingBackend :=
  match @__init__ env (BackendV1 100) doc true qubit_mapping with
  | inr self => self
  | inl _ =>
      {| _backend := OtherBackend; _qubit_mapping := None;
         _enable_shots_roundup := true; _min_shots := 1; _max_shots := None;
         _saved_data := ∅; _replay_memory := ∅ |}
  end.

Definition backend_of (doc : json_document) : QiskitSavedDataSamplingBackend :=
  backend_with doc None.

(** The backend over [document_swapped] whose qubit mapping exchanges
    the qubits 0 and 1. *)
Definition mapped : QiskitSavedDataSamplingBackend :=
  backend_with document_swapped (Some [(0, 1); (1, 0)]).

Definition fresh : QiskitSavedDataSamplingBackend := backend_of document_abc.

(** The backend over [document_abc] after its one record was replayed. *)
Definition used : QiskitSavedDataSamplingBackend :=
  (@sample env fresh "abc"%string 100).2.

(** A recording of three jobs: 100 shots, 50 shots and 100 shots again of
    the circuit "abc". *)
Definition abc50 : QiskitSavedDataSamplingJob :=
  record "abc" 50 [("000", 30); ("111", 20)]%string.

Definition abc100b : QiskitSavedDataSamplingJob :=
  record "abc" 100 [("000", 55); ("111", 45)]%string.

Definition document_session : json_document :=
  JsonArray [abc100; abc50; abc100b].

Definition session : QiskitSavedDataSamplingBackend :=
  backend_of document_session.

(** A text written with apostrophes for the quotes of JSON. *)
Fixpoint json_text (s : string) : string :=
  match s with
  | EmptyString => EmptyString
  | String c s' => String (if Ascii.eqb c "'" then Json.quote else c) (json_text s')
  end.

(** The text of a recording of the three jobs of [document_session], its
    fields in varying order and with varying white space. *)
Definition session_text : string :=
  json_text
    ("[{'circuit_str': 'abc', 'n_shots': 100, " ++
     "'saved_result': {'raw_data': {'000': 60, '111': 40}}}," ++
     " {'n_shots':50,'saved_result':{'raw_data':{'000':30,'111':20}}," ++
     "'circuit_str':'abc'}, " ++
     "{ 'saved_result' : { 'raw_data' : { '000' : 55 , '111' : 45 } } , " ++
     "'circuit_str' : 'abc' , 'n_shots' : 100 } ]")%string.

(** A histogram with the keys "01" and "1". *)
Definition padded : QiskitSavedDataSamplingResult :=
  {| raw_data := [("01", 3); ("1", 4)]%string |}.

End Scenario.

(** ** Vocabulary of the statements *)

(** The records of a sequence that carry a given key, in their order. *)
Definition records_with (key : string * Z)
    (jobs : list QiskitSavedDataSamplingJob) : list QiskitSavedDataSamplingJob :=
  filter (fun job => job_key job = key) jobs.

(** How many chunks of a distribution look up a given key. *)
Definition lookups_of (qasm_str : string) (key : string * Z) (chunks : list Z) : Z :=
  Z.of_nat (length (filter (fun s => (qasm_str, s) = key) chunks)).

(** The cursor table fits the corpus: one cursor per key of the corpus,
    each between 0 and the number of records of its key. *)
Definition cursors_fit (saved_data : SavedDataType)
    (replay_memory : gmap (string * Z) Z) : Prop :=
  forall key,
    match saved_data !! key, replay_memory !! key with
    | Some records, Some c => 0 <= c <= Z.of_nat (length records)
    | None, None => True
    | _, _ => False
    end.

(** Every record of the corpus is filed under its own key. *)
Definition well_grouped (saved_data : SavedDataType) : Prop :=
  forall key records job,
    saved_data !! key = Some records -> job ∈ records -> job_key job = key.

(** The raw keys of a histogram read in base 2. *)
Definition int_keys (items : list (string * Z)) : list (exception + Z) :=
  (fun kv => int_base2 kv.1) <$> items.

(** Why a loop that stopped at chunk [s] stopped there: the key is not in
    the corpus; or it is and its records are used up; or, in a backend no
    construction yields, the key has records but no cursor. *)
Definition stopped_at (saved_data : SavedDataType)
    (replay_memory : gmap (string * Z) Z) (qasm_str : string) (s : Z)
    (e : exception) : Prop :=
  (e = MissingExperimentError /\ saved_data !! (qasm_str, s) = None) \/
  (e = ReplayExhaustedError /\
     exists records c, saved_data !! (qasm_str, s) = Some records /\
       replay_memory !! (qasm_str, s) = Some c /\
       list_getitem records c = None) \/
  (e = KeyErrorAt (qasm_str, s) /\ is_Some (saved_data !! (qasm_str, s)) /\
     replay_memory !! (qasm_str, s) = None).

(** A string made of the characters 0 and 1 only, as Qiskit writes the
    outcome of a single classical register. *)
Fixpoint plain_bits (s : string) : bool :=
  match s with
  | EmptyString => true
  | String c s' => ((c =? "0") || (c =? "1"))%char && plain_bits s'
  end.

(** The number that binary digits write, most significant digit first,
    after the digits already read as [acc]. *)
Fixpoint binary_value (acc : Z) (s : string) : Z :=
  match s with
  | EmptyString => acc
  | String c s' => binary_value (2 * acc + (if (c =? "1")%char then 1 else 0)) s'
  end.

(** * Properties *)

(** ** Reading base-2 literals *)

Example int_base2_samples :
  map PyInt.int_base2
    ["01"; "1"; "0b1"; "0B_1"; "0b"; "0b_"; "1_0"; "1__0"; "1_"; " 1 ";
     "+1"; "-1"; "+ 1"; ""; "0 1"; "_1"; "2"; "0b__1"; "0_1"; "-0b11"; "0x1";
     "000"; "111"]%string
  = [Some 1; Some 1; Some 1; Some 1; None; None; Some 2; None; None; Some 1;
     Some 1; Some (-1); None; None; None; None; None; None; Some 1; Some (-3); None;
     Some 0; Some 7].
Proof. reflexivity. Qed.

(** ** The loader groups by key *)

Lemma records_with_cons key job jobs :
  records_with key (job :: jobs) =
  if decide (job_key job = key) then job :: records_with key jobs
  else records_with key jobs.
Proof. unfold records_with. rewrite filter_cons. reflexivity. Qed.

Lemma foldl_append_job_total jobs : forall saved_data key,
  foldl append_job saved_data jobs !!! key =
  saved_data !!! key ++ records_with key jobs.
Proof.
  induction jobs as [|job jobs IH]; intros saved_data key; simpl.
  - unfold records_with. rewrite filter_nil, app_nil_r. reflexivity.
  - rewrite IH, records_with_cons. unfold append_job.
    destruct (decide (job_key job = key)) as [->|Hne].
    + rewrite lookup_total_insert_eq, <- app_assoc. reflexivity.
    + rewrite lookup_total_insert_ne by exact Hne. reflexivity.
Qed.

Lemma foldl_append_job_is_Some jobs : forall saved_data key,
  is_Some (foldl append_job saved_data jobs !! key) <->
  is_Some (saved_data !! key) \/ records_with key jobs <> [].
Proof.
  induction jobs as [|job jobs IH]; intros saved_data key; simpl.
  - unfold records_with. rewrite filter_nil. intuition congruence.
  - rewrite IH, records_with_cons. unfold append_job.
    destruct (decide (job_key job = key)) as [->|Hne].
    + rewrite lookup_insert_eq. split; [intros _; right; discriminate|].
      intros _. left. eexists; reflexivity.
    + rewrite lookup_insert_ne by exact Hne. reflexivity.
Qed.

(** The corpus has a key exactly when the document has a record of that
    key, and files under it the records of that key in document order. *)
Lemma _load_data_lookup doc key records :
  _load_data doc !! key = Some records <->
  records = records_with key (job_dicts doc) /\ records <> [].
Proof.
  unfold _load_data.
  pose proof (foldl_append_job_total (job_dicts doc) ∅ key) as Htot.
  pose proof (foldl_append_job_is_Some (job_dicts doc) ∅ key) as Hsome.
  rewrite lookup_total_empty in Htot. simpl in Htot.
  rewrite lookup_empty in Hsome.
  split.
  - intros Hl. rewrite (lookup_total_correct _ _ _ Hl) in Htot. subst records.
    split; [reflexivity|].
    destruct Hsome as [Hs _]. destruct Hs as [Hs|Hs].
    + rewrite Hl. eexists; reflexivity.
    + destruct Hs as [? Hs]. discriminate Hs.
    + exact Hs.
  - intros [-> Hne].
    destruct Hsome as [_ Hs]. destruct (Hs (or_intror Hne)) as [rs Hrs].
    rewrite (lookup_total_correct _ _ _ Hrs) in Htot. congruence.
Qed.

Lemma _load_data_None doc key :
  _load_data doc !! key = None <-> records_with key (job_dicts doc) = [].
Proof.
  destruct (_load_data doc !! key) as [records|] eqn:Hl.
  - apply _load_data_lookup in Hl as [-> Hne]. split; [discriminate|]. intros E. contradiction.
  - split; [intros _|reflexivity].
    destruct (records_with key (job_dicts doc)) as [|j rs] eqn:E; [reflexivity|].
    assert (_load_data doc !! key = Some (j :: rs)) as Hc.
    { apply _load_data_lookup. rewrite E. split; [reflexivity|discriminate]. }
    congruence.
Qed.

Lemma _load_data_well_grouped doc : well_grouped (_load_data doc).
Proof.
  intros key records job Hl Hin.
  apply _load_data_lookup in Hl as [-> _].
  unfold records_with in Hin. apply list_elem_of_filter in Hin as [Hk _]. exact Hk.
Qed.

(** ** The loop of [sample] *)

Lemma lookups_of_cons qasm_str key s chunks :
  lookups_of qasm_str key (s :: chunks) =
  (if decide ((qasm_str, s) = key) then 1 else 0) + lookups_of qasm_str key chunks.
Proof.
  unfold lookups_of. rewrite filter_cons.
  destruct (decide ((qasm_str, s) = key)); simpl length; lia.
Qed.

Lemma lookups_of_nonneg qasm_str key chunks : 0 <= lookups_of qasm_str key chunks.
Proof. unfold lookups_of. lia. Qed.

Lemma list_getitem_Some {A : Type} (l : list A) (i : Z) (x : A) :
  0 <= i -> list_getitem l i = Some x -> i < Z.of_nat (length l).
Proof.
  intros Hi. unfold list_getitem.
  destruct (0 <=? i) eqn:E; [|apply Z.leb_gt in E; lia].
  intros Hl. apply lookup_lt_Some in Hl. lia.
Qed.

Lemma list_getitem_nat {A : Type} (l : list A) (i : nat) :
  list_getitem l (Z.of_nat i) = l !! i.
Proof.
  unfold list_getitem. destruct (0 <=? Z.of_nat i) eqn:E; [|apply Z.leb_gt in E; lia].
  rewrite Nat2Z.id. reflexivity.
Qed.

Lemma list_getitem_None {A : Type} (l : list A) (i : Z) :
  0 <= i -> list_getitem l i = None -> Z.of_nat (length l) <= i.
Proof.
  intros Hi. unfold list_getitem.
  destruct (0 <=? i) eqn:E; [|apply Z.leb_gt in E; lia].
  intros Hl. apply lookup_ge_None in Hl. lia.
Qed.

Lemma list_getitem_elem_of {A : Type} (l : list A) (i : Z) (x : A) :
  list_getitem l i = Some x -> x ∈ l.
Proof.
  unfold list_getitem.
  destruct (0 <=? i); [|destruct (0 <=? i + Z.of_nat (length l)); [|discriminate]];
    intros Hl; apply list_elem_of_lookup; eexists; exact Hl.
Qed.

Lemma set_replay_memory_id self : set_replay_memory self (_replay_memory self) = self.
Proof. destruct self; reflexivity. Qed.

Section SamplingProperties.

Context `{Collaborators}.

Lemma sample_loop_qasm_raises saved_data tc e s shot_dist jobs replay_memory :
  qasm tc = inl e ->
  sample_loop saved_data tc (s :: shot_dist) jobs replay_memory =
  (Some e, jobs, replay_memory).
Proof. intros Hq. simpl. rewrite Hq. reflexivity. Qed.

(** The loop consumes a prefix of the distribution: one record per
    chunk, taken from the group of the chunk's key, the cursor of each
    key advanced by the number of chunks that looked it up; it either
    consumes everything or stops at the next chunk. *)
Lemma sample_loop_spec saved_data tc qasm_str :
  qasm tc = inr qasm_str ->
  forall shot_dist jobs replay_memory r jobs' replay_memory',
    sample_loop saved_data tc shot_dist jobs replay_memory =
      (r, jobs', replay_memory') ->
    exists new,
      jobs' = jobs ++ new /\
      Forall2 (fun job s => exists records,
                 saved_data !! (qasm_str, s) = Some records /\ job ∈ records)
              new (take (length new) shot_dist) /\
      (forall key,
         replay_memory' !! key =
         (fun c => c + lookups_of qasm_str key (take (length new) shot_dist))
           <$> replay_memory !! key) /\
      match r with
      | None => length new = length shot_dist
      | Some e =>
          exists s, shot_dist !! length new = Some s /\
                    stopped_at saved_data replay_memory' qasm_str s e
      end.
Proof.
  intros Hq. induction shot_dist as [|s shot_dist IH];
    intros jobs replay_memory r jobs' replay_memory' Hloop.
  - simpl in Hloop. injection Hloop as <- <- <-.
    exists []. rewrite app_nil_r. simpl. repeat split; [constructor|].
    intros key. destruct (replay_memory !! key); simpl; [|reflexivity].
    f_equal. unfold lookups_of. simpl. lia.
  - simpl in Hloop. rewrite Hq in Hloop.
    destruct (saved_data !! (qasm_str, s)) as [records|] eqn:Hsd.
    + destruct (replay_memory !! (qasm_str, s)) as [c|] eqn:Hrm.
      * destruct (list_getitem records c) as [job|] eqn:Hget.
        -- apply IH in Hloop as (new & -> & Hnew & Hcur & Hr).
           exists (job :: new). rewrite <- app_assoc. simpl.
           split; [reflexivity|]. split; [|split].
           ++ constructor; [|exact Hnew]. exists records. split; [exact Hsd|].
              eapply list_getitem_elem_of; exact Hget.
           ++ intros key. rewrite Hcur, lookups_of_cons.
              destruct (decide ((qasm_str, s) = key)) as [<-|Hne].
              ** rewrite lookup_insert_eq, Hrm. simpl. f_equal. lia.
              ** rewrite lookup_insert_ne by exact Hne.
                 destruct (replay_memory !! key); simpl; [f_equal; lia|reflexivity].
           ++ destruct r; [exact Hr|]. f_equal. exact Hr.
        -- injection Hloop as <- <- <-. exists []. rewrite app_nil_r. simpl.
           split; [reflexivity|]. split; [constructor|]. split.
           ++ intros key. destruct (replay_memory !! key); simpl; [|reflexivity].
              f_equal. unfold lookups_of. simpl. lia.
           ++ exists s. split; [reflexivity|]. right. left.
              split; [reflexivity|]. exists records, c. auto.
      * injection Hloop as <- <- <-. exists []. rewrite app_nil_r. simpl.
        split; [reflexivity|]. split; [constructor|]. split.
        -- intros key. destruct (replay_memory !! key); simpl; [|reflexivity].
           f_equal. unfold lookups_of. simpl. lia.
        -- exists s. split; [reflexivity|]. right. right.
           split; [reflexivity|]. split; [exists records; exact Hsd|exact Hrm].
    + injection Hloop as <- <- <-. exists []. rewrite app_nil_r. simpl.
      split; [reflexivity|]. split; [constructor|]. split.
      * intros key. destruct (replay_memory !! key); simpl; [|reflexivity].
        f_equal. unfold lookups_of. simpl. lia.
      * exists s. split; [reflexivity|]. left. split; [reflexivity|exact Hsd].
Qed.

(** The loop keeps the cursor table fitting the corpus. *)
Lemma sample_loop_cursors_fit saved_data tc :
  forall shot_dist jobs replay_memory,
    cursors_fit saved_data replay_memory ->
    cursors_fit saved_data
      (sample_loop saved_data tc shot_dist jobs replay_memory).2.
Proof.
  induction shot_dist as [|s shot_dist IH]; intros jobs replay_memory Hfit;
    simpl; [exact Hfit|].
  destruct (qasm tc) as [e|qasm_str]; [exact Hfit|].
  destruct (saved_data !! (qasm_str, s)) as [records|] eqn:Hsd; [|exact Hfit].
  destruct (replay_memory !! (qasm_str, s)) as [c|] eqn:Hrm; [|exact Hfit].
  destruct (list_getitem records c) as [job|] eqn:Hget; [|exact Hfit].
  apply IH. intros key. specialize (Hfit key).
  destruct (decide ((qasm_str, s) = key)) as [<-|Hne].
  - rewrite Hsd, Hrm in Hfit. rewrite Hsd, lookup_insert_eq.
    pose proof (list_getitem_Some records c job (proj1 Hfit) Hget). lia.
  - rewrite lookup_insert_ne by exact Hne. exact Hfit.
Qed.

(** *** One call *)

Lemma sample_snd self circuit n :
  (sample self circuit n).2 =
  set_replay_memory self (sample_body self circuit n).2.
Proof.
  unfold sample. destruct (sample_body self circuit n) as [[[e|] jobs] rm];
    reflexivity.
Qed.

Lemma sample_fst self circuit n :
  (sample self circuit n).1 =
  match (sample_body self circuit n).1.1 with
  | Some e => inl e
  | None => inr (job_processor (consumed self circuit n) (_qubit_mapping self))
  end.
Proof.
  unfold sample, consumed.
  destruct (sample_body self circuit n) as [[[e|] jobs] rm]; reflexivity.
Qed.

Lemma sample_body_loop self circuit n shot_dist tc :
  1 <= n ->
  shot_distributer n (_min_shots self) (_max_shots self)
    (_enable_shots_roundup self) = inr shot_dist ->
  transpile (_backend self) (_qubit_mapping self) circuit = inr tc ->
  sample_body self circuit n =
  sample_loop (_saved_data self) tc shot_dist [] (_replay_memory self).
Proof.
  intros Hn Hdist Htc. unfold sample_body.
  rewrite Z.geb_leb. destruct (1 <=? n) eqn:E; [|apply Z.leb_gt in E; lia].
  simpl. rewrite Hdist, Htc. reflexivity.
Qed.

Lemma lookups_of_records_with qasm_str key new chunks :
  Forall2 (fun job s => job_key job = (qasm_str, s)) new chunks ->
  lookups_of qasm_str key chunks = Z.of_nat (length (records_with key new)).
Proof.
  induction 1 as [|job s new chunks Hk _ IH].
  - reflexivity.
  - rewrite lookups_of_cons, records_with_cons, IH, Hk.
    destruct (decide ((qasm_str, s) = key)); simpl length; lia.
Qed.

(** Whatever way the body of [sample] ends, every cursor has advanced by
    the number of records of its key that the call consumed. *)
Lemma sample_body_cursor self circuit n :
  well_grouped (_saved_data self) ->
  forall key,
    (sample_body self circuit n).2 !! key =
    (fun c => c + Z.of_nat (length (records_with key (consumed self circuit n))))
      <$> _replay_memory self !! key.
Proof.
  intros Hwg key.
  assert (forall rm : gmap (string * Z) Z,
            rm !! key = (fun c => c + Z.of_nat (length (records_with key []))) <$> rm !! key)
    as Hsame.
  { intros rm. destruct (rm !! key); simpl; [f_equal; lia|reflexivity]. }
  unfold consumed, sample_body.
  destruct (negb (n >=? 1)); [apply Hsame|].
  destruct (shot_distributer _ _ _ _) as [e|shot_dist]; [apply Hsame|].
  destruct (transpile _ _ _) as [e|tc]; [apply Hsame|].
  destruct (qasm tc) as [e|qasm_str] eqn:Hq.
  - destruct shot_dist as [|s shot_dist]; [apply Hsame|].
    rewrite (sample_loop_qasm_raises _ _ _ _ _ _ _ Hq). apply Hsame.
  - destruct (sample_loop _ tc shot_dist [] (_replay_memory self))
      as [[r jobs'] rm'] eqn:Hloop.
    destruct (sample_loop_spec _ _ _ Hq _ _ _ _ _ _ Hloop)
      as (new & -> & Hnew & Hcur & _).
    simpl. rewrite Hcur.
    rewrite (lookups_of_records_with qasm_str key new); [reflexivity|].
    eapply Forall2_impl; [exact Hnew|].
    intros job s (records & Hsd & Hin). eapply Hwg; eassumption.
Qed.

Lemma sample_body_cursors_fit self circuit n :
  cursors_fit (_saved_data self) (_replay_memory self) ->
  cursors_fit (_saved_data self) (sample_body self circuit n).2.
Proof.
  intros Hfit. unfold sample_body.
  destruct (negb (n >=? 1)); [exact Hfit|].
  destruct (shot_distributer _ _ _ _) as [e|shot_dist]; [exact Hfit|].
  destruct (transpile _ _ _) as [e|tc]; [exact Hfit|].
  apply sample_loop_cursors_fit. exact Hfit.
Qed.

(** *** Construction and the backends reachable from it *)

Lemma __init___inr backend doc roundup qm self0 :
  __init__ backend doc roundup qm = inr self0 ->
  backend <> OtherBackend /\
  _backend self0 = backend /\
  _enable_shots_roundup self0 = roundup /\
  _saved_data self0 = _load_data doc /\
  _replay_memory self0 = (fun _ => 0) <$> _load_data doc.
Proof.
  unfold __init__.
  destruct qm as [m|]; [destruct (make_qubit_mapping m) as [e|built]|];
    destruct backend; intros Hinit; try discriminate Hinit;
    injection Hinit as <-; repeat split; discriminate.
Qed.

Lemma cursors_fit_fresh (saved_data : SavedDataType) :
  cursors_fit saved_data ((fun _ => 0) <$> saved_data).
Proof.
  intros key. rewrite lookup_fmap.
  destruct (saved_data !! key); simpl; [lia|exact I].
Qed.

(** A call changes nothing of the backend but the cursor table. *)
Lemma reachable_config self0 self :
  reachable self0 self ->
  _backend self = _backend self0 /\
  _qubit_mapping self = _qubit_mapping self0 /\
  _enable_shots_roundup self = _enable_shots_roundup self0 /\
  _min_shots self = _min_shots self0 /\
  _max_shots self = _max_shots self0 /\
  _saved_data self = _saved_data self0.
Proof.
  induction 1 as [|self circuit n _ IH]; [repeat split|].
  rewrite sample_snd. exact IH.
Qed.

Lemma reachable_cursors_fit self0 self :
  cursors_fit (_saved_data self0) (_replay_memory self0) ->
  reachable self0 self ->
  cursors_fit (_saved_data self0) (_replay_memory self).
Proof.
  intros Hfit. induction 1 as [|self circuit n Hreach IH]; [exact Hfit|].
  rewrite sample_snd. simpl.
  destruct (reachable_config _ _ Hreach) as (_ & _ & _ & _ & _ & Hsd).
  rewrite <- Hsd. apply sample_body_cursors_fit. rewrite Hsd. exact IH.
Qed.

Lemma reachable_trans self0 self1 self2 :
  reachable self0 self1 -> reachable self1 self2 -> reachable self0 self2.
Proof.
  intros H01. induction 1; [exact H01|]. constructor. assumption.
Qed.

(** Every cursor of a call's final table is the cursor before the call
    plus the number of chunks, among those the call consumed, that
    looked its key up. *)
Lemma sample_body_advances self circuit n :
  exists qasm_str chunks,
    forall key,
      (sample_body self circuit n).2 !! key =
      (fun c => c + lookups_of qasm_str key chunks) <$> _replay_memory self !! key.
Proof.
  assert (forall rm : gmap (string * Z) Z, forall key,
            rm !! key = (fun c => c + lookups_of EmptyString key []) <$> rm !! key)
    as Hsame.
  { intros rm key. destruct (rm !! key); simpl; [f_equal|reflexivity].
    unfold lookups_of. simpl. lia. }
  unfold sample_body.
  destruct (negb (n >=? 1)); [exists EmptyString, []; apply Hsame|].
  destruct (shot_distributer _ _ _ _) as [e|shot_dist];
    [exists EmptyString, []; apply Hsame|].
  destruct (transpile _ _ _) as [e|tc]; [exists EmptyString, []; apply Hsame|].
  destruct (qasm tc) as [e|qasm_str] eqn:Hq.
  - destruct shot_dist as [|s shot_dist]; [exists EmptyString, []; apply Hsame|].
    rewrite (sample_loop_qasm_raises _ _ _ _ _ _ _ Hq).
    exists EmptyString, []; apply Hsame.
  - destruct (sample_loop _ tc shot_dist [] (_replay_memory self))
      as [[r jobs'] rm'] eqn:Hloop.
    destruct (sample_loop_spec _ _ _ Hq _ _ _ _ _ _ Hloop)
      as (new & _ & _ & Hcur & _).
    exists qasm_str, (take (length new) shot_dist). exact Hcur.
Qed.

(** No call lowers or drops a cursor. *)
Lemma reachable_cursor_mono self later :
  reachable self later ->
  forall key c,
    _replay_memory self !! key = Some c ->
    exists c', _replay_memory later !! key = Some c' /\ c <= c'.
Proof.
  induction 1 as [|later circuit n _ IH]; intros key c Hc.
  - exists c. split; [exact Hc|lia].
  - destruct (IH key c Hc) as (c1 & Hc1 & Hle).
    rewrite sample_snd. simpl.
    destruct (sample_body_advances later circuit n) as (qasm_str & chunks & Hadv).
    rewrite Hadv, Hc1. simpl. eexists. split; [reflexivity|].
    pose proof (lookups_of_nonneg qasm_str key chunks). lia.
Qed.

Lemma length_run self calls : length (run self calls) = length calls.
Proof.
  revert self. induction calls as [|[circuit n] calls IH]; intros self;
    simpl; [reflexivity|]. rewrite IH. reflexivity.
Qed.

(** ** The claims on single calls and on the state *)

(** C5: a call of [sample] with a requested shot count of zero or less
    raises the invalid-argument error whatever the shot distributor, the
    conversion and the corpus would do, consumes no record and leaves the
    backend, corpus and cursor table, exactly as it was. *)
Theorem sample_rejects_nonpositive_shots self circuit n :
  n <= 0 ->
  sample self circuit n = (inl InvalidArgument, self) /\
  consumed self circuit n = [].
Proof.
  intros Hn. unfold consumed, sample, sample_body.
  rewrite Z.geb_leb. destruct (1 <=? n) eqn:E; [apply Z.leb_le in E; lia|].
  simpl. rewrite set_replay_memory_id. split; reflexivity.
Qed.

(** C8, as the code has it: in a backend that a construction returned,
    and in every backend it becomes by sampling, the minimum shot count
    is 1.  The maximum is the limit that a descriptor of the older
    interface reports when that limit is positive, and unbounded when it
    is not; for a descriptor of the newer interface the maximum is
    unbounded whatever limit the device reports, since the constructor
    reads the limit of the older interface only. *)
Theorem shot_bounds_from_descriptor backend doc roundup qm self0 :
  __init__ backend doc roundup qm = inr self0 ->
  backend <> OtherBackend /\
  forall self, reachable self0 self ->
    _min_shots self = 1 /\
    (forall m, backend = BackendV1 m -> 0 < m -> _max_shots self = Some m) /\
    (forall m, backend = BackendV1 m -> m <= 0 -> _max_shots self = None) /\
    (forall limit, backend = BackendV2 limit -> _max_shots self = None).
Proof.
  intros Hinit.
  split; [exact (proj1 (__init___inr _ _ _ _ _ Hinit))|].
  intros self Hreach.
  destruct (reachable_config _ _ Hreach) as (_ & _ & _ & -> & -> & _).
  unfold __init__ in Hinit.
  destruct qm as [mapping|];
    [destruct (make_qubit_mapping mapping) as [e|built]; [discriminate Hinit|]|];
    destruct backend as [m|limit|]; try discriminate Hinit;
    injection Hinit as <-; cbn [_min_shots _max_shots];
    (split; [reflexivity|]); (split; [|split]);
    try (intros ? [=]; fail).
  - intros m' [= <-] Hm. destruct (0 <? m) eqn:E; [reflexivity|].
    apply Z.ltb_ge in E. lia.
  - intros m' [= <-] Hm. destruct (0 <? m) eqn:E; [|reflexivity].
    apply Z.ltb_lt in E. lia.
  - reflexivity.
  - intros m' [= <-] Hm. destruct (0 <? m) eqn:E; [reflexivity|].
    apply Z.ltb_ge in E. lia.
  - intros m' [= <-] Hm. destruct (0 <? m) eqn:E; [|reflexivity].
    apply Z.ltb_lt in E. lia.
  - reflexivity.
Qed.

(** C6: in the backend a construction returns, the corpus is the loaded
    document and every key of it has cursor 0.  In every backend reached
    from it by calls of [sample], returning or raising, the corpus is
    still the loaded document; the cursor table has exactly the keys of
    the corpus, each cursor between 0 and the number of records of its
    key; and one more call moves each cursor up by exactly the number of
    records of its key that the call consumed, so that none is lowered
    or removed. *)
Theorem corpus_fixed_and_cursors_bounded backend doc roundup qm self0 :
  __init__ backend doc roundup qm = inr self0 ->
  _saved_data self0 = _load_data doc /\
  (forall key, _replay_memory self0 !! key = (fun _ => 0) <$> _load_data doc !! key) /\
  forall self, reachable self0 self ->
    _saved_data self = _load_data doc /\
    cursors_fit (_load_data doc) (_replay_memory self) /\
    forall circuit n key c,
      _replay_memory self !! key = Some c ->
      _replay_memory (sample self circuit n).2 !! key =
      Some (c + Z.of_nat (length (records_with key (consumed self circuit n)))).
Proof.
  intros Hinit.
  destruct (__init___inr _ _ _ _ _ Hinit) as (_ & _ & _ & Hsd0 & Hrm0).
  split; [exact Hsd0|]. split.
  { intros key. rewrite Hrm0, lookup_fmap. reflexivity. }
  intros self Hreach.
  destruct (reachable_config _ _ Hreach) as (_ & _ & _ & _ & _ & Hsd).
  rewrite Hsd0 in Hsd. split; [exact Hsd|]. split.
  - rewrite <- Hsd0. apply reachable_cursors_fit; [|exact Hreach].
    rewrite Hrm0, Hsd0. apply cursors_fit_fresh.
  - intros circuit n key c Hc. rewrite sample_snd. simpl.
    rewrite sample_body_cursor, Hc; [reflexivity|].
    rewrite Hsd. apply _load_data_well_grouped.
Qed.

(** C2: when a call gets past the argument check, the shot distributor
    and the conversion and then raises, it raises at the chunk that
    follows the chunks it consumed; the cursor table it leaves has, for
    every key, the cursor before the call plus the number of consumed
    chunks that looked the key up, so the increments made for the
    earlier chunks stay; the calls that follow run on that backend; and
    no later call lowers any of these cursors. *)
Theorem failed_call_keeps_cursor_increments
    self circuit n shot_dist tc qasm_str e :
  1 <= n ->
  shot_distributer n (_min_shots self) (_max_shots self)
    (_enable_shots_roundup self) = inr shot_dist ->
  transpile (_backend self) (_qubit_mapping self) circuit = inr tc ->
  qasm tc = inr qasm_str ->
  (sample self circuit n).1 = inl e ->
  let self' := (sample self circuit n).2 in
  let earlier := take (length (consumed self circuit n)) shot_dist in
  (exists s, shot_dist !! length (consumed self circuit n) = Some s /\
             stopped_at (_saved_data self) (_replay_memory self') qasm_str s e) /\
  Forall2 (fun job s => exists records,
             _saved_data self !! (qasm_str, s) = Some records /\ job ∈ records)
          (consumed self circuit n) earlier /\
  (forall key,
     _replay_memory self' !! key =
     (fun c => c + lookups_of qasm_str key earlier) <$> _replay_memory self !! key) /\
  _saved_data self' = _saved_data self /\
  (forall calls,
     run self ((circuit, n) :: calls) = (inl e, self') :: run self' calls) /\
  (forall later, reachable self' later ->
     forall key c, _replay_memory self' !! key = Some c ->
       exists c', _replay_memory later !! key = Some c' /\ c <= c').
Proof.
  intros Hn Hdist Htc Hq Hfail self' earlier. subst self' earlier.
  pose proof (sample_body_loop _ _ _ _ _ Hn Hdist Htc) as Hbody.
  rewrite sample_fst in Hfail. rewrite sample_snd. unfold consumed in *.
  rewrite Hbody in *.
  destruct (sample_loop _ tc shot_dist [] (_replay_memory self))
    as [[r jobs'] rm'] eqn:Hloop.
  destruct (sample_loop_spec _ _ _ Hq _ _ _ _ _ _ Hloop)
    as (new & -> & Hnew & Hcur & Hr).
  cbn [fst snd app] in *.
  destruct r as [e'|]; [|discriminate Hfail]. injection Hfail as ->.
  split; [exact Hr|]. split; [exact Hnew|]. split; [exact Hcur|].
  split; [reflexivity|]. split.
  - intros calls. cbn [run].
    assert (sample self circuit n = (inl e, set_replay_memory self rm')) as ->.
    { rewrite (surjective_pairing (sample self circuit n)), sample_fst, sample_snd.
      unfold consumed. rewrite Hbody. reflexivity. }
    reflexivity.
  - intros later. apply reachable_cursor_mono.
Qed.

(** *** Chunk by chunk *)

Lemma sample_loop_app saved_data tc pre rest :
  forall jobs replay_memory,
    sample_loop saved_data tc (pre ++ rest) jobs replay_memory =
    match sample_loop saved_data tc pre jobs replay_memory with
    | (None, jobs1, replay_memory1) =>
        sample_loop saved_data tc rest jobs1 replay_memory1
    | stopped => stopped
    end.
Proof.
  induction pre as [|s pre IH]; intros jobs replay_memory; [reflexivity|].
  cbn [app sample_loop].
  destruct (qasm tc) as [e|qasm_str]; [reflexivity|].
  destruct (saved_data !! (qasm_str, s)) as [records|]; [|reflexivity].
  destruct (replay_memory !! (qasm_str, s)) as [c|]; [|reflexivity].
  destruct (list_getitem records c) as [job|]; [|reflexivity].
  apply IH.
Qed.

(** A stop at a chunk whose key the corpus has, with a cursor table that
    fits, is a stop for want of records. *)
Lemma stopped_at_present saved_data replay_memory qasm_str s e :
  cursors_fit saved_data replay_memory ->
  is_Some (saved_data !! (qasm_str, s)) ->
  stopped_at saved_data replay_memory qasm_str s e ->
  e = ReplayExhaustedError.
Proof.
  intros Hfit [records Hsd] [[_ Hnone]|[[-> _]|(_ & _ & Hrm)]].
  - congruence.
  - reflexivity.
  - specialize (Hfit (qasm_str, s)). rewrite Hsd, Hrm in Hfit. contradiction.
Qed.

(** C4, as the code has it: a call whose distribution has a chunk with a
    key absent from the corpus raises and returns no job, whatever calls
    came before.  Let [s] be the first such chunk.  If the loop consumes
    every chunk before [s], the call raises the missing-experiment error
    at [s]; if the loop stops before, it stops at a chunk whose records
    are used up, and the call raises the replay-exhausted error. *)
Theorem absent_chunk_fails_call
    backend doc roundup qm self0 self circuit n tc qasm_str pre s post :
  __init__ backend doc roundup qm = inr self0 ->
  reachable self0 self ->
  1 <= n ->
  shot_distributer n (_min_shots self) (_max_shots self)
    (_enable_shots_roundup self) = inr (pre ++ s :: post) ->
  transpile (_backend self) (_qubit_mapping self) circuit = inr tc ->
  qasm tc = inr qasm_str ->
  _saved_data self !! (qasm_str, s) = None ->
  (forall s', s' ∈ pre -> is_Some (_saved_data self !! (qasm_str, s'))) ->
  let before := sample_loop (_saved_data self) tc pre [] (_replay_memory self) in
  (exists e, (sample self circuit n).1 = inl e /\
             (e = MissingExperimentError \/ e = ReplayExhaustedError)) /\
  (before.1.1 = None ->
     (sample self circuit n).1 = inl MissingExperimentError /\
     length (consumed self circuit n) = length pre) /\
  (forall e, before.1.1 = Some e ->
     e = ReplayExhaustedError /\
     (sample self circuit n).1 = inl ReplayExhaustedError /\
     (length (consumed self circuit n) < length pre)%nat).
Proof.
  intros Hinit Hreach Hn Hdist Htc Hq Habsent Hpresent before. subst before.
  destruct (__init___inr _ _ _ _ _ Hinit) as (_ & _ & _ & Hsd0 & Hrm0).
  destruct (reachable_config _ _ Hreach) as (_ & _ & _ & _ & _ & Hsd).
  assert (cursors_fit (_saved_data self) (_replay_memory self)) as Hfit.
  { rewrite Hsd. apply reachable_cursors_fit; [|exact Hreach].
    rewrite Hrm0, Hsd0. apply cursors_fit_fresh. }
  pose proof (sample_body_loop _ _ _ _ _ Hn Hdist Htc) as Hbody.
  rewrite sample_fst. unfold consumed. rewrite Hbody, sample_loop_app.
  pose proof (sample_loop_cursors_fit (_saved_data self) tc pre []
                (_replay_memory self) Hfit) as Hfit1.
  destruct (sample_loop _ tc pre [] (_replay_memory self))
    as [[r1 jobs1] rm1] eqn:Hpre.
  destruct (sample_loop_spec _ _ _ Hq _ _ _ _ _ _ Hpre)
    as (new & -> & _ & _ & Hr).
  cbn [fst snd app] in *.
  destruct r1 as [e1|].
  - destruct Hr as (s1 & Hs1 & Hstop).
    assert (e1 = ReplayExhaustedError) as ->.
    { eapply stopped_at_present; [exact Hfit1| |exact Hstop].
      apply Hpresent. apply list_elem_of_lookup. eexists; exact Hs1. }
    cbn [fst snd]. split; [eexists; split; [reflexivity|right; reflexivity]|].
    split; [discriminate|].
    intros e [= <-]. repeat split. eapply lookup_lt_Some; exact Hs1.
  - cbn [sample_loop]. rewrite Hq, Habsent. cbn [fst snd].
    split; [eexists; split; [reflexivity|left; reflexivity]|].
    split; [|discriminate]. intros _. split; [reflexivity|exact Hr].
Qed.

(** *** Calls of a single chunk *)

Lemma single_chunk_sample self qasm_str s call records c :
  single_chunk_call self qasm_str s call ->
  _saved_data self !! (qasm_str, s) = Some records ->
  _replay_memory self !! (qasm_str, s) = Some c ->
  sample self call.1 call.2 =
  match list_getitem records c with
  | Some job =>
      (inr (job_processor [job] (_qubit_mapping self)),
       set_replay_memory self (<[(qasm_str, s) := c + 1]> (_replay_memory self)))
  | None => (inl ReplayExhaustedError, self)
  end.
Proof.
  intros (Hn & Hdist & tc & Htc & Hq) Hsd Hrm.
  unfold sample. rewrite (sample_body_loop _ _ _ _ _ Hn Hdist Htc).
  cbn [sample_loop]. rewrite Hq, Hsd, Hrm.
  destruct (list_getitem records c) as [job|]; [reflexivity|].
  rewrite set_replay_memory_id. reflexivity.
Qed.

Lemma run_single_chunk_calls qasm_str s records calls :
  forall self (j : nat),
    _saved_data self !! (qasm_str, s) = Some records ->
    _replay_memory self !! (qasm_str, s) = Some (Z.of_nat j) ->
    Forall (single_chunk_call self qasm_str s) calls ->
    forall i r, run self calls !! i = Some r ->
      (forall job, records !! (j + i)%nat = Some job ->
         r.1 = inr (job_processor [job] (_qubit_mapping self))) /\
      ((length records <= j + i)%nat -> r.1 = inl ReplayExhaustedError).
Proof.
  induction calls as [|[circuit n] calls IH]; intros self j Hsd Hrm Hcalls i r Hr;
    [discriminate Hr|].
  apply Forall_cons in Hcalls as [Hcall Hcalls].
  pose proof (single_chunk_sample _ _ _ _ _ _ Hcall Hsd Hrm) as Hsample.
  rewrite list_getitem_nat in Hsample. cbn [fst snd] in Hsample.
  cbn [run] in Hr. destruct i as [|i].
  - injection Hr as <-. rewrite Hsample, Nat.add_0_r.
    destruct (records !! j) as [job|] eqn:Hj.
    + split; [intros job' [= <-]; reflexivity|].
      intros Hlen. apply lookup_lt_Some in Hj. lia.
    + split; [discriminate|reflexivity].
  - cbn [lookup list_lookup] in Hr. rewrite Hsample in Hr.
    destruct (records !! j) as [job|] eqn:Hj; cbn [snd] in Hr.
    + apply (IH _ (S j)) in Hr.
      * rewrite <- Nat.add_succ_comm. exact Hr.
      * exact Hsd.
      * cbn [_replay_memory set_replay_memory]. rewrite lookup_insert_eq.
        f_equal. lia.
      * exact Hcalls.
    + apply (IH _ j Hsd Hrm Hcalls) in Hr as [_ Hover].
      apply lookup_ge_None in Hj. split.
      * intros job Hjob. apply lookup_lt_Some in Hjob. lia.
      * intros _. apply Hover. lia.
Qed.

(** C3: for a key the loaded corpus files records under, and a sequence
    of single-chunk calls on the fresh backend that each look that key
    up, every call has its outcome; the call at position [i] (from 0)
    returns the job made of the record at position [i], as long as
    there is one, and every call from position [length records] on
    raises the replay-exhausted error. *)
Theorem replay_exhausted_exactly_on_excess
    backend doc roundup qm self0 qasm_str s records calls :
  __init__ backend doc roundup qm = inr self0 ->
  _load_data doc !! (qasm_str, s) = Some records ->
  Forall (single_chunk_call self0 qasm_str s) calls ->
  length (run self0 calls) = length calls /\
  forall i r, run self0 calls !! i = Some r ->
    (forall job, records !! i = Some job ->
       r.1 = inr (job_processor [job] (_qubit_mapping self0))) /\
    ((length records <= i)%nat -> r.1 = inl ReplayExhaustedError).
Proof.
  intros Hinit Hrecords Hcalls. split; [apply length_run|]. intros i r Hr.
  destruct (__init___inr _ _ _ _ _ Hinit) as (_ & _ & _ & Hsd0 & Hrm0).
  apply (run_single_chunk_calls qasm_str s records calls self0 0%nat) in Hr.
  - exact Hr.
  - rewrite Hsd0. exact Hrecords.
  - rewrite Hrm0, lookup_fmap, Hrecords. reflexivity.
  - exact Hcalls.
Qed.

End SamplingProperties.

(** ** The histogram of a saved result *)

Lemma counts_loop_app l1 l2 m0 :
  counts_loop (l1 ++ l2) m0 =
  match counts_loop l1 m0 with
  | inl e => inl e
  | inr m1 => counts_loop l2 m1
  end.
Proof.
  revert m0. induction l1 as [|[s n] l1 IH]; intros m0; [reflexivity|].
  cbn [app counts_loop]. destruct (int_base2 s); [reflexivity|apply IH].
Qed.

Lemma counts_loop_literals items : forall m0,
  Forall (fun kv => exists k, int_base2 kv.1 = inr k) items <->
  exists m, counts_loop items m0 = inr m.
Proof.
  induction items as [|[s n] items IH]; intros m0; cbn [counts_loop].
  - split; [intros _; eexists; reflexivity|constructor].
  - rewrite Forall_cons. cbn [fst]. destruct (int_base2 s) as [e|k].
    + split; [intros [[k Hk] _]; discriminate Hk|intros [m Hm]; discriminate Hm].
    + rewrite (IH (<[k:=n]> m0)). split; [intros [_ Hm]; exact Hm|].
      intros Hm. split; [eexists; reflexivity|exact Hm].
Qed.

(** A key that no remaining entry reads as keeps its count. *)
Lemma counts_loop_other items : forall m0 m k,
  counts_loop items m0 = inr m ->
  (forall kv, kv ∈ items -> int_base2 kv.1 <> inr k) ->
  m !! k = m0 !! k.
Proof.
  induction items as [|[s n] items IH]; intros m0 m k Hloop Hother;
    cbn [counts_loop] in Hloop.
  - injection Hloop as <-. reflexivity.
  - destruct (int_base2 s) as [e|k0] eqn:Hs; [discriminate Hloop|].
    rewrite (IH _ _ k Hloop).
    + apply lookup_insert_ne. intros <-.
      apply (Hother (s, n)); [apply elem_of_cons; left; reflexivity|exact Hs].
    + intros kv Hin. apply Hother. apply elem_of_cons. right. exact Hin.
Qed.

(** Every count of the result was there before or comes from an entry. *)
Lemma counts_loop_source items : forall m0 m k v,
  counts_loop items m0 = inr m ->
  m !! k = Some v ->
  m0 !! k = Some v \/ exists s, (s, v) ∈ items /\ int_base2 s = inr k.
Proof.
  induction items as [|[s n] items IH]; intros m0 m k v Hloop Hk;
    cbn [counts_loop] in Hloop.
  - injection Hloop as <-. left. exact Hk.
  - destruct (int_base2 s) as [e|k0] eqn:Hs; [discriminate Hloop|].
    destruct (IH _ _ _ _ Hloop Hk) as [H0|(s' & Hin & Hs')].
    + destruct (decide (k0 = k)) as [->|Hne].
      * rewrite lookup_insert_eq in H0. injection H0 as ->.
        right. exists s. split; [apply elem_of_cons; left; reflexivity|exact Hs].
      * rewrite lookup_insert_ne in H0 by exact Hne. left. exact H0.
    + right. exists s'. split; [apply elem_of_cons; right; exact Hin|exact Hs'].
Qed.

Lemma total_counts_insert k n (m : SamplingCounts) :
  m !! k = None -> total_counts (<[k:=n]> m) = n + total_counts m.
Proof.
  intros Hk. unfold total_counts.
  rewrite map_fold_insert_L; [reflexivity| |exact Hk].
  intros; lia.
Qed.

(** Keys that read as pairwise distinct integers: one entry each, every
    count kept, the total kept. *)
Lemma counts_loop_distinct items : forall m0 m,
  counts_loop items m0 = inr m ->
  NoDup (int_keys items) ->
  (forall k, inr k ∈ int_keys items -> m0 !! k = None) ->
  size m = (size m0 + length items)%nat /\
  total_counts m = total_counts m0 + total_raw items /\
  forall s v, (s, v) ∈ items -> exists k, int_base2 s = inr k /\ m !! k = Some v.
Proof.
  induction items as [|[s n] items IH]; intros m0 m Hloop Hnd Hfresh;
    cbn [counts_loop] in Hloop.
  - injection Hloop as <-. cbn [length total_raw foldr].
    split; [lia|]. split; [lia|]. intros s v Hin. apply elem_of_nil in Hin. contradiction.
  - destruct (int_base2 s) as [e|k0] eqn:Hs; [discriminate Hloop|].
    unfold int_keys in Hnd, Hfresh. cbn [fmap list_fmap fst] in Hnd, Hfresh.
    rewrite Hs in Hnd, Hfresh. apply NoDup_cons in Hnd as [Hk0 Hnd].
    assert (m0 !! k0 = None) as Hm0.
    { apply Hfresh. apply elem_of_cons. left. reflexivity. }
    destruct (IH _ _ Hloop Hnd) as (Hsize & Htotal & Hentries).
    { intros k Hk. rewrite lookup_insert_ne.
      - apply Hfresh. apply elem_of_cons. right. exact Hk.
      - intros <-. apply Hk0. exact Hk. }
    rewrite map_size_insert_None in Hsize by exact Hm0.
    rewrite total_counts_insert in Htotal by exact Hm0.
    cbn [length total_raw foldr snd]. fold (total_raw items).
    split; [lia|]. split; [lia|].
    intros s' v Hin. apply elem_of_cons in Hin as [[= -> ->]|Hin].
    + exists k0. split; [exact Hs|].
      rewrite (counts_loop_other _ _ _ k0 Hloop).
      * apply lookup_insert_eq.
      * intros kv Hkv Heq. apply Hk0. rewrite <- Heq.
        apply (list_elem_of_fmap_2 (fun kv => int_base2 kv.1)). exact Hkv.
    + apply Hentries. exact Hin.
Qed.

(** With keys that read as pairwise distinct integers, [counts] keeps one
    entry per raw entry, every count and the total. *)
Lemma counts_distinct self m :
  counts self = inr m ->
  NoDup (int_keys (raw_data self)) ->
  size m = length (raw_data self) /\
  (forall s v, (s, v) ∈ raw_data self ->
     exists k, int_base2 s = inr k /\ m !! k = Some v) /\
  total_counts m = total_raw (raw_data self).
Proof.
  intros Hm Hnd. unfold counts in Hm.
  destruct (counts_loop_distinct _ _ _ Hm Hnd) as (Hsize & Htotal & Hentries).
  { intros k _. apply lookup_empty. }
  rewrite map_size_empty in Hsize.
  split; [exact Hsize|]. split; [exact Hentries|].
  rewrite Htotal. unfold total_counts. rewrite map_fold_empty. lia.
Qed.

(** C9: [counts] returns exactly when every key of [raw_data] is a base-2
    literal, and then re-keys [raw_data] by the integers its keys read
    as: every entry of the result comes from a raw entry; an entry that
    no later entry shares its integer with decides the count of that
    integer, so a later entry overwrites an earlier one; when the keys
    read as pairwise distinct integers, the result has one entry per raw
    entry, every count is kept and so is the total.  With the keys "01"
    and "1", which both read as 1, the later count replaces the earlier
    one and the total drops from 7 to 4. *)
Theorem counts_rekeys_in_base2 :
  (forall self,
     Forall (fun kv => exists k, int_base2 kv.1 = inr k) (raw_data self) <->
     exists m, counts self = inr m) /\
  (forall self m,
     counts self = inr m ->
     (forall k v, m !! k = Some v ->
        exists s, (s, v) ∈ raw_data self /\ int_base2 s = inr k) /\
     (forall earlier s v later k,
        raw_data self = earlier ++ (s, v) :: later ->
        int_base2 s = inr k ->
        (forall kv, kv ∈ later -> int_base2 kv.1 <> inr k) ->
        m !! k = Some v) /\
     (NoDup (int_keys (raw_data self)) ->
        size m = length (raw_data self) /\
        (forall s v, (s, v) ∈ raw_data self ->
           exists k, int_base2 s = inr k /\ m !! k = Some v) /\
        total_counts m = total_raw (raw_data self))) /\
  (let self := {| raw_data := [("01", 3); ("1", 4)]%string |} in
   int_base2 "01" = inr 1 /\ int_base2 "1" = inr 1 /\
   counts self = inr {[1 := 4]} /\
   total_counts {[1 := 4]} = 4 /\ total_raw (raw_data self) = 7).
Proof.
  split; [|split].
  - intros self. apply counts_loop_literals.
  - intros self m Hm. unfold counts in Hm. split; [|split].
    + intros k v Hk.
      destruct (counts_loop_source _ _ _ _ _ Hm Hk) as [H0|Hsrc]; [|exact Hsrc].
      rewrite lookup_empty in H0. discriminate H0.
    + intros earlier s v later k Hraw Hs Hlater.
      rewrite Hraw, counts_loop_app in Hm.
      destruct (counts_loop earlier ∅) as [e|m1]; [discriminate Hm|].
      cbn [counts_loop] in Hm. rewrite Hs in Hm.
      rewrite (counts_loop_other _ _ _ k Hm Hlater). apply lookup_insert_eq.
    + intros Hnd. apply counts_distinct; assumption.
  - vm_compute. repeat split.
Qed.

(** ** The record a single-chunk call replays *)

Lemma merge_counts_empty_r (m : SamplingCounts) : merge_counts m ∅ = m.
Proof.
  apply map_eq. intros k. unfold merge_counts.
  rewrite lookup_union_with, lookup_empty. destruct (m !! k); reflexivity.
Qed.

Lemma result_counts_single job :
  result_counts (job_processor [job] None) = counts (result job).
Proof.
  unfold result_counts, job_processor. cbn [chunk_jobs job_qubit_mapping merged_counts].
  destruct (counts (result job)) as [e|m]; [reflexivity|].
  rewrite merge_counts_empty_r. reflexivity.
Qed.

Lemma total_counts_add_count k n (m : SamplingCounts) :
  total_counts (add_count k n m) = n + total_counts m.
Proof.
  unfold add_count. destruct (m !! k) as [old|] eqn:Hk; cbn [default]; unfold id.
  - assert (total_counts m = old + total_counts (delete k m)) as ->.
    { rewrite <- (insert_delete_id m k old Hk) at 1.
      apply total_counts_insert, lookup_delete_eq. }
    assert (<[k:=old + n]> m = <[k:=old + n]> (delete k m)) as ->
      by (symmetry; apply insert_delete_eq).
    rewrite total_counts_insert by apply lookup_delete_eq.
    lia.
  - rewrite total_counts_insert by exact Hk. lia.
Qed.

(** The inverse qubit mapping moves counts between outcomes and keeps
    their total. *)
Lemma total_counts_unmap qm (m : SamplingCounts) :
  total_counts (unmap_sampling_counts qm m) = total_counts m.
Proof.
  unfold unmap_sampling_counts.
  induction m as [|k n m Hk Hfirst IH] using map_first_key_ind.
  - rewrite map_fold_empty. reflexivity.
  - rewrite map_fold_insert_first_key by assumption.
    rewrite total_counts_add_count, IH, total_counts_insert by exact Hk.
    reflexivity.
Qed.

Section ReplayedHistogram.

Context `{Collaborators}.

(** C1, as the code has it: the corpus has exactly one record under the
    key, its histogram can be read, sums to the shot count of the record
    and has keys that read as pairwise distinct outcomes, and a
    single-chunk call looks that key up while its cursor is still 0.  The
    call returns a job made of that record and moves the cursor to 1.
    The histogram of the job is the stored histogram, with the inverse
    qubit mapping applied to its outcomes when the backend has a qubit
    mapping; so it is exactly the stored histogram when the backend has
    none.  With or without a qubit mapping its counts add up to the shot
    count asked for. *)
Theorem first_single_chunk_call_replays_record
    backend doc roundup qm self0 self circuit n qasm_str job histogram :
  __init__ backend doc roundup qm = inr self0 ->
  reachable self0 self ->
  _load_data doc !! (qasm_str, n) = Some [job] ->
  _replay_memory self !! (qasm_str, n) = Some 0 ->
  single_chunk_call self qasm_str n (circuit, n) ->
  counts (result job) = inr histogram ->
  NoDup (int_keys (raw_data (result job))) ->
  total_raw (raw_data (result job)) = n_shots job ->
  exists served self',
    sample self circuit n = (inr served, self') /\
    chunk_jobs served = [job] /\
    _replay_memory self' !! (qasm_str, n) = Some 1 /\
    result_counts served =
      inr match _qubit_mapping self with
          | Some mapped => unmap_sampling_counts mapped histogram
          | None => histogram
          end /\
    (_qubit_mapping self = None -> result_counts served = counts (result job)) /\
    exists m, result_counts served = inr m /\ total_counts m = n.
Proof.
  intros Hinit Hreach Hjob Hcursor Hcall Hhist Hnd Htotal.
  destruct (__init___inr _ _ _ _ _ Hinit) as (_ & _ & _ & Hsd0 & _).
  destruct (reachable_config _ _ Hreach) as (_ & _ & _ & _ & _ & Hsd).
  rewrite Hsd0 in Hsd.
  assert (n_shots job = n) as Hn.
  { assert (job_key job = (qasm_str, n)) as Hkey.
    { apply (_load_data_well_grouped doc _ [job]); [exact Hjob|].
      apply list_elem_of_singleton. reflexivity. }
    injection Hkey as _ Hn. exact Hn. }
  rewrite <- Hsd in Hjob.
  pose proof (single_chunk_sample _ _ _ _ _ _ Hcall Hjob Hcursor) as Hsample.
  cbn in Hsample. do 2 eexists. split; [exact Hsample|].
  split; [reflexivity|]. split; [apply lookup_insert_eq|].
  destruct (counts_distinct _ _ Hhist Hnd) as (_ & _ & Hsum).
  assert (result_counts (job_processor [job] (_qubit_mapping self)) =
            inr match _qubit_mapping self with
                | Some mapped => unmap_sampling_counts mapped histogram
                | None => histogram
                end) as Hserved.
  { unfold result_counts, job_processor.
    cbn [chunk_jobs job_qubit_mapping merged_counts].
    rewrite Hhist, merge_counts_empty_r.
    destruct (_qubit_mapping self); reflexivity. }
  split; [exact Hserved|]. split.
  - intros Hqm. rewrite Hserved, Hqm, Hhist. reflexivity.
  - eexists. split; [exact Hserved|].
    destruct (_qubit_mapping self) as [mapped|];
      rewrite ?total_counts_unmap; lia.
Qed.

End ReplayedHistogram.

(** ** Exporting and loading *)

Lemma filter_all {A : Type} (P : A -> Prop) `{forall x, Decision (P x)} (l : list A) :
  (forall x, x ∈ l -> P x) -> filter P l = l.
Proof.
  induction l as [|x l IH]; intros Hall; [reflexivity|].
  rewrite filter_cons. destruct (decide (P x)) as [_|Hn].
  - f_equal. apply IH. intros y Hy. apply Hall. apply elem_of_cons. right. exact Hy.
  - exfalso. apply Hn, Hall. apply elem_of_cons. left. reflexivity.
Qed.

Lemma filter_none {A : Type} (P : A -> Prop) `{forall x, Decision (P x)} (l : list A) :
  (forall x, x ∈ l -> ~ P x) -> filter P l = [].
Proof.
  induction l as [|x l IH]; intros Hnone; [reflexivity|].
  rewrite filter_cons. destruct (decide (P x)) as [Hp|_].
  - exfalso. apply (Hnone x); [apply elem_of_cons; left; reflexivity|exact Hp].
  - apply IH. intros y Hy. apply Hnone. apply elem_of_cons. right. exact Hy.
Qed.

(** Listing a well-grouped corpus key by key and picking the records of
    one key gives back the group of that key. *)
Lemma records_with_corpus_records (saved_data : SavedDataType) :
  well_grouped saved_data ->
  forall key,
    records_with key (corpus_records saved_data) = default [] (saved_data !! key).
Proof.
  induction saved_data as [|i x m Hi Hfirst IH] using map_first_key_ind;
    intros Hwg key.
  - unfold corpus_records. rewrite map_to_list_empty, lookup_empty. reflexivity.
  - unfold corpus_records.
    rewrite (map_to_list_insert_first_key m i x Hi Hfirst).
    cbn [fmap list_fmap snd concat]. fold (corpus_records m).
    unfold records_with. rewrite filter_app. fold (records_with key (corpus_records m)).
    assert (well_grouped m) as Hwgm.
    { intros k records job Hk Hin. apply (Hwg k records job); [|exact Hin].
      rewrite lookup_insert_ne; [exact Hk|]. intros <-. congruence. }
    rewrite (IH Hwgm).
    destruct (decide (i = key)) as [<-|Hne].
    + rewrite lookup_insert_eq, Hi. cbn [default]. rewrite app_nil_r.
      apply filter_all. intros job Hin.
      apply (Hwg i x job); [apply lookup_insert_eq|exact Hin].
    + rewrite lookup_insert_ne by exact Hne.
      rewrite filter_none; [reflexivity|].
      intros job Hin Hkey. apply Hne. rewrite <- Hkey. symmetry.
      apply (Hwg i x job); [apply lookup_insert_eq|exact Hin].
Qed.

Lemma concat_Permutation {A : Type} (l1 l2 : list (list A)) :
  l1 ≡ₚ l2 -> concat l1 ≡ₚ concat l2.
Proof.
  induction 1 as [|x l1 l2 _ IH|x y l|l1 l2 l3 _ IH1 _ IH2]; cbn [concat].
  - reflexivity.
  - rewrite IH. reflexivity.
  - rewrite !app_assoc. rewrite (Permutation_app_comm y x). reflexivity.
  - etransitivity; eassumption.
Qed.

Lemma corpus_records_insert (saved_data : SavedDataType) key records :
  saved_data !! key = None ->
  corpus_records (<[key := records]> saved_data) ≡ₚ records ++ corpus_records saved_data.
Proof.
  intros Hnone. unfold corpus_records.
  rewrite (concat_Permutation _ ((key, records) :: map_to_list saved_data).*2).
  - reflexivity.
  - apply fmap_Permutation. apply map_to_list_insert. exact Hnone.
Qed.

Lemma corpus_records_append_job saved_data job :
  corpus_records (append_job saved_data job) ≡ₚ corpus_records saved_data ++ [job].
Proof.
  unfold append_job.
  destruct (saved_data !! job_key job) as [records|] eqn:Hk.
  - rewrite (lookup_total_correct _ _ _ Hk).
    assert (corpus_records saved_data ≡ₚ
              records ++ corpus_records (delete (job_key job) saved_data)) as Hold.
    { rewrite <- (insert_delete_id saved_data (job_key job) records Hk) at 1.
      apply corpus_records_insert, lookup_delete_eq. }
    rewrite Hold, <- (insert_delete_eq saved_data).
    rewrite corpus_records_insert by apply lookup_delete_eq.
    rewrite <- !app_assoc. apply Permutation_app_head. apply Permutation_app_comm.
  - rewrite corpus_records_insert by exact Hk.
    rewrite lookup_total_alt, Hk. cbn [default app from_option].
    apply Permutation_app_comm.
Qed.

Lemma corpus_records_foldl jobs : forall saved_data,
  corpus_records (foldl append_job saved_data jobs) ≡ₚ corpus_records saved_data ++ jobs.
Proof.
  induction jobs as [|job jobs IH]; intros saved_data; cbn [foldl].
  - rewrite app_nil_r. reflexivity.
  - rewrite IH, corpus_records_append_job, <- app_assoc. reflexivity.
Qed.

(** ** The text of a document *)

Module JsonFacts.

Import Json.
Local Open Scope string_scope.

Lemma append_cons c (s t : string) : String c s ++ t = String c (s ++ t).
Proof. reflexivity. Qed.

Lemma append_nil (t : string) : EmptyString ++ t = t.
Proof. reflexivity. Qed.

Lemma append_assoc (a b c : string) : (a ++ b) ++ c = a ++ (b ++ c).
Proof.
  induction a as [|x a IH]; [reflexivity|].
  rewrite !append_cons, IH. reflexivity.
Qed.

Lemma length_append (a b : string) :
  String.length (a ++ b) = (String.length a + String.length b)%nat.
Proof.
  induction a as [|x a IH]; [reflexivity|].
  rewrite append_cons. cbn [String.length]. rewrite IH. reflexivity.
Qed.

Lemma skip_whitespace_starts_value s :
  starts_value s -> skip_whitespace s = s.
Proof. intros (c & s' & -> & [-> | ->]); reflexivity. Qed.

Lemma starts_value_append s t : starts_value s -> starts_value (s ++ t).
Proof. intros (c & s' & -> & Hc). exists c, (s' ++ t). split; [reflexivity|exact Hc]. Qed.

(** *** Strings *)

Lemma scan_string_escape_char c t :
  scan_string (escape_char c ++ t) = with_char c (scan_string t).
Proof.
  destruct c as [[] [] [] [] [] [] [] []]; reflexivity.
Qed.

Lemma scan_string_escape s rest :
  scan_string (escape s ++ String quote rest) = Some (s, rest).
Proof.
  induction s as [|c s IH]; [reflexivity|].
  cbn [escape]. rewrite append_assoc, scan_string_escape_char, IH. reflexivity.
Qed.

Lemma loads_str_dumps_str s rest :
  loads_str (dumps_str s ++ rest) = Some (s, rest).
Proof.
  unfold dumps_str. rewrite append_cons. cbn [loads_str].
  change (Ascii.eqb quote quote) with true. cbn iota.
  rewrite append_assoc, append_cons, append_nil. apply scan_string_escape.
Qed.

Lemma starts_value_dumps_str s : starts_value (dumps_str s).
Proof. eexists _, _. split; [reflexivity|]. left. reflexivity. Qed.

(** *** Integers *)

Lemma scan_digits_delimited rest : delimited rest -> scan_digits rest = (Nil, rest).
Proof. intros (c & s' & -> & [-> | [-> | ->]]); reflexivity. Qed.

Lemma continues_number_delimited rest : delimited rest -> continues_number rest = false.
Proof. intros (c & s' & -> & [-> | [-> | ->]]); reflexivity. Qed.

Lemma scan_digits_string_of_uint d rest :
  delimited rest ->
  scan_digits (NilEmpty.string_of_uint d ++ rest) = (d, rest).
Proof.
  intros Hrest. induction d as [|d IH|d IH|d IH|d IH|d IH|d IH|d IH|d IH|d IH|d IH];
    cbn [NilEmpty.string_of_uint];
    [rewrite append_nil; apply scan_digits_delimited, Hrest|..];
    rewrite append_cons; cbn [scan_digits]; rewrite IH; reflexivity.
Qed.

(** The digits of a positive number do not start with 0. *)
Lemma unorm_fixed_D0 u : unorm (D0 u) = D0 u -> u = Nil.
Proof.
  intros Hu. destruct (uint_eq_dec u Nil) as [Hnil|Hnil]; [exact Hnil|].
  rewrite unorm_D0 in Hu.
  pose proof (nb_digits_unorm u Hnil) as Hle. rewrite Hu in Hle.
  cbn [nb_digits] in Hle. lia.
Qed.

Lemma unorm_to_uint p : unorm (Pos.to_uint p) = Pos.to_uint p.
Proof.
  rewrite <- (DecimalPos.Unsigned.to_of (Pos.to_uint p)).
  rewrite DecimalPos.Unsigned.of_to. reflexivity.
Qed.

Lemma scan_int_string_of_uint d rest (negative : bool) :
  unorm d = d -> delimited rest ->
  scan_int negative (NilZero.string_of_uint d ++ rest) =
  Some (Z.of_int (if negative then Neg d else Pos d), rest).
Proof.
  intros Hnorm Hrest. unfold scan_int.
  assert (d <> Nil) as Hnil by (rewrite <- Hnorm; apply unorm_nonnil).
  assert (NilZero.string_of_uint d = NilEmpty.string_of_uint d) as ->
    by (destruct d; [contradiction|reflexivity..]).
  rewrite (scan_digits_string_of_uint d rest Hrest).
  rewrite (continues_number_delimited rest Hrest).
  destruct d as [|u|u|u|u|u|u|u|u|u|u]; try contradiction; try reflexivity.
  rewrite (unorm_fixed_D0 u Hnorm). reflexivity.
Qed.

Lemma string_of_uint_head d :
  d <> Nil ->
  exists c s, NilZero.string_of_uint d = String c s /\ c <> "-"%char.
Proof.
  destruct d; [contradiction|..]; intros _; eexists _, _;
    (split; [reflexivity|discriminate]).
Qed.

Lemma loads_int_dumps_int n rest :
  delimited rest -> loads_int (dumps_int n ++ rest) = Some (n, rest).
Proof.
  intros Hrest. unfold dumps_int.
  assert (forall p, unorm (Pos.to_uint p) = Pos.to_uint p /\ Pos.to_uint p <> Nil)
    as Hp.
  { intros p. split; [apply unorm_to_uint|].
    rewrite <- unorm_to_uint. apply unorm_nonnil. }
  destruct n as [|p|p]; cbn [Z.to_int NilZero.string_of_int].
  - destruct Hrest as (c & s' & -> & [-> | [-> | ->]]); reflexivity.
  - destruct (Hp p) as [Hnorm Hnil].
    pose proof (scan_int_string_of_uint _ rest false Hnorm Hrest) as Hloads.
    destruct (string_of_uint_head _ Hnil) as (c & s & Hs & Hc).
    rewrite Hs in *. rewrite append_cons in *.
    assert (loads_int (String c (s ++ rest)) = scan_int false (String c (s ++ rest)))
      as ->.
    { unfold loads_int. destruct c as [[] [] [] [] [] [] [] []]; try reflexivity.
      contradiction Hc; reflexivity. }
    rewrite Hloads. f_equal. f_equal.
    exact (DecimalZ.of_to (Z.pos p)).
  - destruct (Hp p) as [Hnorm Hnil].
    pose proof (scan_int_string_of_uint _ rest true Hnorm Hrest) as Hloads.
    rewrite append_cons. cbn [loads_int].
    rewrite Hloads. f_equal. f_equal.
    exact (DecimalZ.of_to (Z.neg p)).
Qed.

(** *** Lists and dictionaries *)

Lemma join_cons_cons sep p q ps :
  join sep (p :: q :: ps) = p ++ sep ++ join sep (q :: ps).
Proof. reflexivity. Qed.

Lemma starts_value_length s : starts_value s -> (1 <= String.length s)%nat.
Proof. intros (c & s' & -> & _). cbn [String.length]. lia. Qed.

Lemma length_join {A : Type} (print : A -> string) xs :
  (forall x, starts_value (print x)) ->
  (length xs <= String.length (join ", " (print <$> xs)))%nat.
Proof.
  intros Hprint. induction xs as [|x xs IH]; [cbn; lia|].
  destruct xs as [|y xs].
  - cbn [fmap list_fmap join length]. apply starts_value_length, Hprint.
  - change (print <$> x :: y :: xs) with (print x :: print y :: (print <$> xs)).
    rewrite join_cons_cons, !length_append.
    change (print y :: (print <$> xs)) with (print <$> y :: xs).
    pose proof (starts_value_length _ (Hprint x)). cbn [length] in *. lia.
Qed.

Lemma starts_value_join {A : Type} (print : A -> string) xs t :
  (forall x, starts_value (print x)) -> xs <> [] ->
  starts_value (join ", " (print <$> xs) ++ t).
Proof.
  intros Hprint Hne. destruct xs as [|x [|y xs]]; [contradiction|..].
  - cbn [fmap list_fmap join]. apply starts_value_append, Hprint.
  - change (print <$> x :: y :: xs) with (print x :: print y :: (print <$> xs)).
    rewrite join_cons_cons, append_assoc. apply starts_value_append, Hprint.
Qed.

(** The items of a printed list or dictionary are read back one by one,
    given that each of them is. *)
Lemma scan_items_join {A : Type} (value : string -> option (A * string))
    (print : A -> string) (P : A -> Prop) (close : ascii) xs :
  close = "}"%char \/ close = "]"%char ->
  (forall x, starts_value (print x)) ->
  (forall x t, P x -> delimited t -> value (print x ++ t) = Some (x, t)) ->
  Forall P xs -> xs <> [] ->
  forall fuel rest, (length xs <= fuel)%nat ->
  scan_items value close fuel (join ", " (print <$> xs) ++ String close rest) =
  Some (xs, rest).
Proof.
  intros Hclose Hstart Hvalue HP. induction HP as [|x xs Hx HP IH]; [contradiction|].
  intros _ fuel rest Hfuel. destruct fuel as [|fuel]; [cbn [length] in Hfuel; lia|].
  cbn [length] in Hfuel. destruct xs as [|y xs].
  - cbn [fmap list_fmap join scan_items].
    rewrite Hvalue; [|exact Hx|].
    + destruct Hclose as [-> | ->]; reflexivity.
    + eexists _, _. split; [reflexivity|]. destruct Hclose as [-> | ->]; auto.
  - change (print <$> x :: y :: xs) with (print x :: print y :: (print <$> xs)).
    rewrite join_cons_cons.
    change (print y :: (print <$> xs)) with (print <$> y :: xs).
    rewrite !append_assoc. cbn [scan_items].
    rewrite Hvalue; [|exact Hx|].
    + change (", " ++ ?t) with (String "," (String " " t)).
      set (more := join ", " (print <$> y :: xs) ++ String close rest).
      assert (skip_whitespace (String "," (String " " more)) =
              String "," (String " " more)) as -> by reflexivity.
      assert (Ascii.eqb "," close = false) as ->
        by (destruct Hclose as [-> | ->]; reflexivity).
      change (Ascii.eqb "," ",") with true. cbn iota.
      assert (skip_whitespace (String " " more) = more) as ->.
      { change (skip_whitespace (String " " more)) with (skip_whitespace more).
        apply skip_whitespace_starts_value, starts_value_join;
          [exact Hstart|discriminate]. }
      subst more. rewrite IH; [reflexivity|discriminate|lia].
    + eexists _, _. split; [reflexivity|]. left. reflexivity.
Qed.

Lemma scan_sequence_join {A : Type} (value : string -> option (A * string))
    (print : A -> string) (P : A -> Prop) (close : ascii) xs rest :
  close = "}"%char \/ close = "]"%char ->
  (forall x, starts_value (print x)) ->
  (forall x t, P x -> delimited t -> value (print x ++ t) = Some (x, t)) ->
  Forall P xs ->
  scan_sequence value close (join ", " (print <$> xs) ++ String close rest) =
  Some (xs, rest).
Proof.
  intros Hclose Hstart Hvalue HP. unfold scan_sequence.
  destruct xs as [|x xs].
  - cbn [fmap list_fmap join]. rewrite append_nil.
    destruct Hclose as [-> | ->]; reflexivity.
  - pose proof (starts_value_join print (x :: xs) (String close rest) Hstart
                  ltac:(discriminate)) as Hs.
    rewrite (skip_whitespace_starts_value _ Hs).
    pose proof (length_join print (x :: xs) Hstart) as Hlen.
    pose proof (scan_items_join value print P close (x :: xs) Hclose Hstart Hvalue
                  HP ltac:(discriminate)
                  (String.length (join ", " (print <$> x :: xs) ++ String close rest))
                  rest) as Hitems.
    rewrite length_append in Hitems. specialize (Hitems ltac:(lia)).
    destruct Hs as (c & s' & Hs & Hc). rewrite Hs in *.
    assert (Ascii.eqb c close = false) as ->.
    { destruct Hc as [-> | ->]; destruct Hclose as [-> | ->]; reflexivity. }
    rewrite <- length_append, Hs in Hitems. exact Hitems.
Qed.

Lemma dict_set_fresh {V : Type} (d : list (string * V)) k v :
  k ∉ d.*1 -> dict_set d k v = (d ++ [(k, v)])%list.
Proof.
  induction d as [|[k' v'] d IH]; intros Hk; [reflexivity|].
  cbn [dict_set]. rewrite fmap_cons in Hk. cbn [fst] in Hk.
  apply not_elem_of_cons in Hk as [Hne Hk].
  destruct (String.eqb k' k) eqn:E; [apply String.eqb_eq in E; congruence|].
  rewrite (IH Hk). reflexivity.
Qed.

Lemma dict_set_keys {V : Type} (d : list (string * V)) k v :
  (dict_set d k v).*1 = if bool_decide (k ∈ d.*1) then d.*1 else (d.*1 ++ [k])%list.
Proof.
  induction d as [|[k' v'] d IH].
  - cbn. rewrite bool_decide_eq_false_2; [reflexivity|]. apply not_elem_of_nil.
  - cbn [dict_set]. destruct (String.eqb k' k) eqn:E.
    + apply String.eqb_eq in E as ->. rewrite !fmap_cons. cbn [fst].
      rewrite bool_decide_eq_true_2 by left. reflexivity.
    + apply String.eqb_neq in E. rewrite !fmap_cons. cbn [fst].
      rewrite IH. destruct (bool_decide (k ∈ d.*1)) eqn:Hin.
      * apply bool_decide_eq_true in Hin.
        rewrite bool_decide_eq_true_2; [reflexivity|]. right. exact Hin.
      * apply bool_decide_eq_false in Hin.
        rewrite bool_decide_eq_false_2; [reflexivity|].
        intros Hin'. apply elem_of_cons in Hin' as [Heq|Hin']; congruence.
Qed.

Lemma dict_set_NoDup {V : Type} (d : list (string * V)) k v :
  NoDup d.*1 -> NoDup (dict_set d k v).*1.
Proof.
  intros Hnd. rewrite dict_set_keys. destruct (bool_decide (k ∈ d.*1)) eqn:Hin;
    [exact Hnd|].
  apply bool_decide_eq_false in Hin. apply NoDup_app. split; [exact Hnd|].
  split; [|apply NoDup_singleton].
  intros x Hx Hx'. apply list_elem_of_singleton in Hx' as ->. contradiction.
Qed.

Lemma dict_set_values {V : Type} (P : V -> Prop) (d : list (string * V)) k v :
  Forall P d.*2 -> P v -> Forall P (dict_set d k v).*2.
Proof.
  intros Hd Hv. induction d as [|[k' v'] d IH]; [repeat constructor; exact Hv|].
  cbn [dict_set]. rewrite fmap_cons in Hd. inversion Hd as [|? ? Hv' Hd']; subst.
  destruct (String.eqb k' k); rewrite fmap_cons; constructor; auto.
Qed.

Lemma foldl_dict_set_NoDup {V : Type} (pairs d : list (string * V)) :
  NoDup d.*1 ->
  NoDup (foldl (fun d item => dict_set d item.1 item.2) d pairs).*1.
Proof.
  revert d. induction pairs as [|[k v] pairs IH]; intros d Hd; [exact Hd|].
  cbn [foldl]. apply IH, dict_set_NoDup, Hd.
Qed.

Lemma foldl_dict_set_values {V : Type} (P : V -> Prop) (pairs d : list (string * V)) :
  Forall P d.*2 -> Forall P pairs.*2 ->
  Forall P (foldl (fun d item => dict_set d item.1 item.2) d pairs).*2.
Proof.
  revert d. induction pairs as [|[k v] pairs IH]; intros d Hd Hp; [exact Hd|].
  rewrite fmap_cons in Hp. inversion Hp as [|? ? Hv Hp']; subst.
  cbn [foldl]. apply IH; [|exact Hp']. apply dict_set_values; assumption.
Qed.

(** A dictionary built from items with pairwise distinct keys has these
    items, in their order. *)
Lemma foldl_dict_set_distinct {V : Type} (pairs d : list (string * V)) :
  NoDup (d ++ pairs)%list.*1 ->
  foldl (fun d item => dict_set d item.1 item.2) d pairs = (d ++ pairs)%list.
Proof.
  revert d. induction pairs as [|[k v] pairs IH]; intros d Hnd.
  - cbn [foldl]. rewrite app_nil_r. reflexivity.
  - cbn [foldl fst snd]. rewrite fmap_app, fmap_cons in Hnd. cbn [fst] in Hnd.
    rewrite dict_set_fresh.
    + rewrite IH; [rewrite <- app_assoc; reflexivity|].
      rewrite <- app_assoc, fmap_app. exact Hnd.
    + apply NoDup_app in Hnd as (_ & Hdisj & _).
      intros Hin. apply (Hdisj k Hin). left.
Qed.

Lemma dict_of_pairs_distinct {V : Type} (pairs : list (string * V)) :
  NoDup pairs.*1 -> dict_of_pairs pairs = pairs.
Proof. intros Hnd. apply (foldl_dict_set_distinct pairs []). exact Hnd. Qed.

Lemma dict_of_pairs_NoDup {V : Type} (pairs : list (string * V)) :
  NoDup (dict_of_pairs pairs).*1.
Proof. apply foldl_dict_set_NoDup. constructor. Qed.

Lemma dict_of_pairs_values {V : Type} (P : V -> Prop) (pairs : list (string * V)) :
  Forall P pairs.*2 -> Forall P (dict_of_pairs pairs).*2.
Proof. apply foldl_dict_set_values. constructor. Qed.

Lemma dict_get_elem_of {V : Type} (d : list (string * V)) k v :
  dict_get d k = Some v -> v ∈ d.*2.
Proof.
  induction d as [|[k' v'] d IH]; [discriminate|].
  cbn [dict_get]. destruct (String.eqb k' k).
  - intros [= ->]. left.
  - intros Hget. right. apply IH, Hget.
Qed.

Lemma skip_whitespace_starts_black s t :
  starts_black s -> skip_whitespace (s ++ t) = s ++ t.
Proof.
  intros (c & s' & -> & Hc). rewrite append_cons. cbn [skip_whitespace].
  rewrite Hc. reflexivity.
Qed.

Lemma starts_value_black s : starts_value s -> starts_black s.
Proof.
  intros (c & s' & -> & Hc). exists c, s'. split; [reflexivity|].
  destruct Hc as [-> | ->]; reflexivity.
Qed.

Lemma starts_black_dumps_int n : starts_black (dumps_int n).
Proof.
  assert (forall d, d <> Nil -> starts_black (NilZero.string_of_uint d)) as Hd.
  { intros d Hnil. destruct d; [contradiction|..]; eexists _, _;
      (split; [reflexivity|reflexivity]). }
  assert (forall p, Pos.to_uint p <> Nil) as Hp.
  { intros p. rewrite <- unorm_to_uint. apply unorm_nonnil. }
  unfold dumps_int. destruct n as [|p|p]; cbn [Z.to_int NilZero.string_of_int].
  - eexists _, _. split; reflexivity.
  - apply Hd, Hp.
  - eexists _, _. split; reflexivity.
Qed.

Lemma starts_value_dumps_dict {V : Type} (dumps_value : V -> string) d :
  starts_value (dumps_dict dumps_value d).
Proof. eexists _, _. split; [reflexivity|]. right. reflexivity. Qed.

Lemma loads_item_dumps_item {V : Type}
    (value : string -> string -> option (V * string))
    (dumps_value : V -> string) k v t :
  starts_black (dumps_value v) ->
  value k (dumps_value v ++ t) = Some (v, t) ->
  loads_item value (dumps_item dumps_value (k, v) ++ t) = Some ((k, v), t).
Proof.
  intros Hblack Hvalue. unfold loads_item, dumps_item. cbn [fst snd].
  rewrite !append_assoc, loads_str_dumps_str.
  change (": " ++ ?u) with (String ":" (String " " u)).
  cbn [skip_whitespace is_whitespace].
  rewrite (skip_whitespace_starts_black _ _ Hblack), Hvalue. reflexivity.
Qed.

(** A printed dictionary with pairwise distinct keys is read back, given
    that each of its values is. *)
Lemma loads_dict_dumps_dict {V : Type}
    (value : string -> string -> option (V * string))
    (dumps_value : V -> string) d rest :
  Forall (fun item =>
            starts_black (dumps_value item.2) /\
            forall t, delimited t ->
              value item.1 (dumps_value item.2 ++ t) = Some (item.2, t)) d ->
  NoDup d.*1 ->
  loads_dict value (dumps_dict dumps_value d ++ rest) = Some (d, rest).
Proof.
  intros Hd Hnd. unfold loads_dict, dumps_dict.
  change ("{" ++ ?u) with (String "{" u). rewrite append_cons, append_assoc.
  change ("}" ++ rest) with (String "}" rest).
  rewrite (scan_sequence_join (loads_item value) (dumps_item dumps_value)
             (fun item =>
                starts_black (dumps_value item.2) /\
                forall t, delimited t ->
                  value item.1 (dumps_value item.2 ++ t) = Some (item.2, t))
             "}" d rest).
  - rewrite (dict_of_pairs_distinct d Hnd). reflexivity.
  - left. reflexivity.
  - intros item. apply starts_value_append, starts_value_dumps_str.
  - intros [k v] t [Hblack Hvalue] Ht.
    apply loads_item_dumps_item; [exact Hblack|]. apply Hvalue, Ht.
  - exact Hd.
Qed.

Lemma loads_list_dumps_list {A : Type} (value : string -> option (A * string))
    (print : A -> string) (P : A -> Prop) xs rest :
  (forall x, starts_value (print x)) ->
  (forall x t, P x -> delimited t -> value (print x ++ t) = Some (x, t)) ->
  Forall P xs ->
  loads_list value (dumps_list print xs ++ rest) = Some (xs, rest).
Proof.
  intros Hstart Hvalue HP. unfold loads_list, dumps_list.
  change ("[" ++ ?u) with (String "[" u). rewrite append_cons, append_assoc.
  change ("]" ++ rest) with (String "]" rest).
  apply (scan_sequence_join value print P "]" xs rest
           (or_intror eq_refl) Hstart Hvalue HP).
Qed.

(** What is read satisfies what each value read satisfies. *)
Lemma scan_items_Forall {A : Type} (value : string -> option (A * string))
    (P : A -> Prop) close :
  (forall s x rest, value s = Some (x, rest) -> P x) ->
  forall fuel s xs rest,
    scan_items value close fuel s = Some (xs, rest) -> Forall P xs.
Proof.
  intros Hvalue. induction fuel as [|fuel IH]; intros s xs rest; [discriminate|].
  cbn [scan_items]. destruct (value s) as [[x s1]|] eqn:Hx; [|discriminate].
  destruct (skip_whitespace s1) as [|c s2]; [discriminate|].
  destruct (Ascii.eqb c close).
  - intros [= <- <-]. repeat constructor. exact (Hvalue _ _ _ Hx).
  - destruct (Ascii.eqb c ","); [|discriminate].
    destruct (scan_items value close fuel (skip_whitespace s2)) as [[xs' rest']|]
      eqn:Hxs; [|discriminate].
    intros [= <- <-]. constructor; [exact (Hvalue _ _ _ Hx)|exact (IH _ _ _ Hxs)].
Qed.

Lemma scan_sequence_Forall {A : Type} (value : string -> option (A * string))
    (P : A -> Prop) close s xs rest :
  (forall s x rest, value s = Some (x, rest) -> P x) ->
  scan_sequence value close s = Some (xs, rest) -> Forall P xs.
Proof.
  intros Hvalue. unfold scan_sequence.
  destruct (skip_whitespace s) as [|c s']; [discriminate|].
  destruct (Ascii.eqb c close).
  - intros [= <- <-]. constructor.
  - apply scan_items_Forall, Hvalue.
Qed.

Lemma loads_dict_NoDup {V : Type}
    (value : string -> string -> option (V * string)) s d rest :
  loads_dict value s = Some (d, rest) -> NoDup d.*1.
Proof.
  unfold loads_dict. destruct s as [|c s]; [discriminate|].
  destruct (Ascii.eqb c "{") eqn:Hc;
    [apply Ascii.eqb_eq in Hc as ->
    |destruct c as [[] [] [] [] [] [] [] []]; try discriminate; discriminate Hc].
  destruct (scan_sequence (loads_item value) "}" s) as [[pairs rest']|];
    [|discriminate].
  intros [= <- <-]. apply dict_of_pairs_NoDup.
Qed.

Lemma loads_dict_values {V : Type}
    (value : string -> string -> option (V * string)) (P : V -> Prop) s d rest :
  (forall k s v rest, value k s = Some (v, rest) -> P v) ->
  loads_dict value s = Some (d, rest) -> Forall P d.*2.
Proof.
  intros Hvalue. unfold loads_dict. destruct s as [|c s]; [discriminate|].
  destruct (Ascii.eqb c "{") eqn:Hc;
    [apply Ascii.eqb_eq in Hc as ->
    |destruct c as [[] [] [] [] [] [] [] []]; try discriminate; discriminate Hc].
  destruct (scan_sequence (loads_item value) "}" s) as [[pairs rest']|] eqn:Hpairs;
    [|discriminate].
  intros [= <- <-]. apply dict_of_pairs_values, Forall_fmap.
  apply (scan_sequence_Forall (loads_item value) (fun item => P item.2)
           "}" s pairs rest'); [|exact Hpairs].
  intros s0 [k v] rest0. unfold loads_item.
  destruct (loads_str s0) as [[k0 s1]|]; [|discriminate].
  destruct (skip_whitespace s1) as [|c s2]; [discriminate|].
  destruct (Ascii.eqb c ":") eqn:Hc;
    [apply Ascii.eqb_eq in Hc as ->
    |destruct c as [[] [] [] [] [] [] [] []]; try discriminate; discriminate Hc].
  destruct (value k0 (skip_whitespace s2)) as [[v0 rest1]|] eqn:Hv; [|discriminate].
  intros [= <- <- <-]. exact (Hvalue _ _ _ _ Hv).
Qed.

End JsonFacts.

(** ** Saved jobs in the text of a document *)

Section JobText.

Import Json JsonFacts.
Local Open Scope string_scope.

Lemma append_nil_r (s : string) : s ++ EmptyString = s.
Proof.
  induction s as [|c s IH]; [reflexivity|]. rewrite append_cons, IH. reflexivity.
Qed.

Lemma loads_histogram_dumps (histogram : list (string * Z)) rest :
  NoDup histogram.*1 ->
  loads_dict (fun _ => loads_int) (dumps_dict dumps_int histogram ++ rest) =
  Some (histogram, rest).
Proof.
  intros Hnd. apply loads_dict_dumps_dict; [|exact Hnd].
  apply Forall_forall. intros [k v] _. cbn [fst snd].
  split; [apply starts_black_dumps_int|]. intros t Ht.
  apply loads_int_dumps_int, Ht.
Qed.

Lemma loads_job_dumps_job job rest :
  raw_data_is_dict job -> delimited rest ->
  loads_job (dumps_job job ++ rest) = Some (job, rest).
Proof.
  intros Hdict Hrest. unfold loads_job, dumps_job.
  rewrite (loads_dict_dumps_dict loads_field dumps_field (asdict job) rest).
  - destruct job as [c n [histogram]]. reflexivity.
  - unfold asdict. repeat constructor; cbn [fst snd dumps_field].
    + apply starts_value_black, starts_value_dumps_str.
    + intros t _. cbn. rewrite loads_str_dumps_str. reflexivity.
    + apply starts_black_dumps_int.
    + intros t Ht. cbn. rewrite (loads_int_dumps_int _ _ Ht). reflexivity.
    + apply starts_value_black, starts_value_dumps_dict.
    + intros t _.
      change (loads_field "saved_result" ?u)
        with (with_value ResultValue (loads_dict loads_result_field u)).
      rewrite (loads_dict_dumps_dict loads_result_field (dumps_dict dumps_int)
                 [("raw_data", raw_data (saved_result job))] t); [reflexivity| |].
      * repeat constructor; cbn [fst snd].
        -- apply starts_value_black, starts_value_dumps_dict.
        -- intros t' _.
           change (loads_result_field "raw_data" ?u)
             with (loads_dict (fun _ => loads_int) u).
           apply loads_histogram_dumps, Hdict.
      * cbn. repeat constructor. apply not_elem_of_nil.
  - vm_compute. repeat constructor; rewrite ?elem_of_cons, ?elem_of_nil;
      intros Hin; repeat destruct Hin as [Hin|Hin]; try discriminate Hin; exact Hin.
Qed.

Lemma starts_value_dumps_job job : starts_value (dumps_job job).
Proof. apply starts_value_dumps_dict. Qed.

(** The exported text of a sequence of saved jobs is read back as the
    array of these jobs. *)
Lemma loads_document_export jobs :
  Forall raw_data_is_dict jobs ->
  loads_document (convert_saved_jobs_sequence_to_str jobs) = Some (JsonArray jobs).
Proof.
  intros Hjobs. unfold loads_document, convert_saved_jobs_sequence_to_str.
  pose proof (loads_list_dumps_list loads_job dumps_job raw_data_is_dict jobs
                EmptyString starts_value_dumps_job
                (fun job t Hjob Ht => loads_job_dumps_job job t Hjob Ht) Hjobs)
    as Hlist.
  rewrite append_nil_r in Hlist.
  unfold dumps_list in *. change ("[" ++ ?u) with (String "[" u) in *.
  cbn [skip_whitespace is_whitespace]. rewrite Hlist. reflexivity.
Qed.

Lemma loads_result_field_NoDup name s histogram rest :
  loads_result_field name s = Some (histogram, rest) -> NoDup histogram.*1.
Proof.
  unfold loads_result_field. destruct (String.eqb name "raw_data"); [|discriminate].
  apply loads_dict_NoDup.
Qed.

Lemma loads_field_holds_dicts name s v rest :
  loads_field name s = Some (v, rest) -> field_holds_dicts v.
Proof.
  unfold loads_field.
  destruct (String.eqb name "circuit_str").
  { destruct (loads_str s) as [[x r]|]; [|discriminate]. intros [= <- <-]. exact I. }
  destruct (String.eqb name "n_shots").
  { destruct (loads_int s) as [[x r]|]; [|discriminate]. intros [= <- <-]. exact I. }
  destruct (String.eqb name "saved_result"); [|discriminate].
  destruct (loads_dict loads_result_field s) as [[fields r]|] eqn:Hfields;
    [|discriminate].
  intros [= <- <-]. cbn [field_holds_dicts].
  apply (loads_dict_values loads_result_field _ s fields r); [|exact Hfields].
  intros k s0 histogram rest0. apply loads_result_field_NoDup.
Qed.

Lemma loads_job_is_dict s job rest :
  loads_job s = Some (job, rest) -> raw_data_is_dict job.
Proof.
  unfold loads_job.
  destruct (loads_dict loads_field s) as [[job_dict r]|] eqn:Hdict; [|discriminate].
  destruct (make_job job_dict) as [job'|] eqn:Hjob; [|discriminate].
  intros [= <- <-].
  pose proof (loads_dict_values loads_field field_holds_dicts s job_dict r
                loads_field_holds_dicts Hdict) as Hfields.
  unfold make_job in Hjob.
  destruct (dict_get job_dict "circuit_str") as [[c| |]|]; try discriminate.
  destruct (dict_get job_dict "n_shots") as [[|n|]|]; try discriminate.
  destruct (dict_get job_dict "saved_result") as [[| |fields]|] eqn:Hresult;
    try discriminate.
  destruct (dict_get fields "raw_data") as [histogram|] eqn:Hraw; [|discriminate].
  injection Hjob as <-. unfold raw_data_is_dict. cbn [saved_result raw_data].
  apply dict_get_elem_of in Hresult, Hraw.
  rewrite Forall_forall in Hfields. specialize (Hfields _ Hresult).
  cbn [field_holds_dicts] in Hfields. rewrite Forall_forall in Hfields.
  exact (Hfields _ Hraw).
Qed.

(** Every saved job of a document read from a text has a dictionary as
    its histogram. *)
Lemma loads_document_is_dict s document :
  loads_document s = Some document -> Forall raw_data_is_dict (job_dicts document).
Proof.
  unfold loads_document.
  destruct (skip_whitespace s) as [|c s'] eqn:Hs; [discriminate|].
  destruct (Ascii.eqb c "[") eqn:Hc.
  - apply Ascii.eqb_eq in Hc as ->.
    destruct (loads_list loads_job (String "[" s')) as [[jobs rest]|] eqn:Hjobs;
      [|discriminate].
    destruct (at_end rest); [|discriminate]. intros [= <-]. cbn [job_dicts].
    unfold loads_list in Hjobs.
    apply (scan_sequence_Forall loads_job raw_data_is_dict "]" s' jobs rest);
      [|exact Hjobs].
    intros s0 job rest0. apply loads_job_is_dict.
  - destruct (Ascii.eqb c "{") eqn:Hc'.
    + apply Ascii.eqb_eq in Hc' as ->.
      destruct (skip_whitespace s') as [|c' rest]; [discriminate|].
      destruct (Ascii.eqb c' "}") eqn:Hc''.
      * apply Ascii.eqb_eq in Hc'' as ->.
        destruct (at_end rest); [|discriminate]. intros [= <-]. constructor.
      * destruct c' as [[] [] [] [] [] [] [] []]; try discriminate; discriminate Hc''.
    + destruct c as [[] [] [] [] [] [] [] []]; try discriminate;
        first [discriminate Hc|discriminate Hc'].
Qed.

End JobText.

(** C7: a text that the loader accepts as a document of the exchange
    format gives a corpus.  The records of that corpus, listed key by
    key, are exported as a text that the loader accepts and that gives
    the same corpus; and so is every sequence that lists, for each key,
    the records of the corpus under that key in their order.  The
    exported text reads as the array of the listed records, which are
    the records of the first document rearranged, those of each key in
    the order they have there: the same keys, the same per-key record
    order, the same histograms. *)
Theorem export_then_load_groups_by_key json_str corpus :
  _load_data_str json_str = Some corpus ->
  _load_data_str (convert_saved_jobs_sequence_to_str (corpus_records corpus)) =
    Some corpus /\
  (forall jobs,
     (forall key, records_with key jobs = default [] (corpus !! key)) ->
     _load_data_str (convert_saved_jobs_sequence_to_str jobs) = Some corpus) /\
  exists document,
    loads_document json_str = Some document /\
    loads_document (convert_saved_jobs_sequence_to_str (corpus_records corpus)) =
      Some (JsonArray (corpus_records corpus)) /\
    corpus_records corpus ≡ₚ job_dicts document /\
    forall key,
      records_with key (corpus_records corpus) =
      records_with key (job_dicts document).
Proof.
  unfold _load_data_str. intros Hload.
  destruct (loads_document json_str) as [document|] eqn:Hdoc; [|discriminate].
  injection Hload as <-.
  pose proof (loads_document_is_dict _ _ Hdoc) as Hdicts.
  assert (forall jobs,
            (forall key, records_with key jobs =
                         default [] (_load_data document !! key)) ->
            loads_document (convert_saved_jobs_sequence_to_str jobs) =
              Some (JsonArray jobs) /\
            _load_data (JsonArray jobs) = _load_data document) as Hlisting.
  { intros jobs Hjobs. split.
    - apply loads_document_export, Forall_forall. intros job Hin.
      rewrite Forall_forall in Hdicts. apply Hdicts.
      assert (job ∈ records_with (job_key job) jobs) as Hin'
        by (apply list_elem_of_filter; split; [reflexivity|exact Hin]).
      rewrite Hjobs in Hin'.
      destruct (_load_data document !! job_key job) as [records|] eqn:Hkey;
        cbn [default] in Hin'; [|apply elem_of_nil in Hin'; contradiction].
      apply _load_data_lookup in Hkey as [-> _].
      apply list_elem_of_filter in Hin' as [_ Hin']. exact Hin'.
    - apply map_eq. intros key. specialize (Hjobs key).
      destruct (_load_data document !! key) as [records|] eqn:Hkey;
        cbn [default] in Hjobs.
      + apply _load_data_lookup. cbn [job_dicts]. rewrite Hjobs.
        split; [reflexivity|].
        apply _load_data_lookup in Hkey as [_ Hne]. exact Hne.
      + apply _load_data_None. exact Hjobs. }
  pose proof (records_with_corpus_records _ (_load_data_well_grouped document))
    as Hcorpus.
  split; [|split].
  - destruct (Hlisting _ Hcorpus) as [-> ->]. reflexivity.
  - intros jobs Hjobs. destruct (Hlisting _ Hjobs) as [-> ->]. reflexivity.
  - exists document. split; [reflexivity|].
    split; [exact (proj1 (Hlisting _ Hcorpus))|]. split.
    + unfold _load_data. rewrite corpus_records_foldl.
      unfold corpus_records. rewrite map_to_list_empty. reflexivity.
    + intros key. rewrite Hcorpus.
      destruct (_load_data document !! key) as [records|] eqn:Hkey; cbn [default].
      * apply _load_data_lookup in Hkey as [-> _]. reflexivity.
      * apply _load_data_None in Hkey. symmetry. exact Hkey.
Qed.

(** * Further properties of the module *)

(** ** The loader *)

(** X1: the loader files every record of the document exactly once: the
    records of the loaded corpus, group after group, are a rearrangement
    of the records of the document; no group is empty; and every record
    of a group carries the key of the group. *)
Theorem _load_data_keeps_every_record :
  forall doc,
    corpus_records (_load_data doc) ≡ₚ job_dicts doc /\
    forall key records,
      _load_data doc !! key = Some records ->
      records <> [] /\
      Forall (fun job => circuit_str job = key.1 /\ n_shots job = key.2) records.
Proof.
  intros doc. split.
  - unfold _load_data. rewrite corpus_records_foldl.
    unfold corpus_records. rewrite map_to_list_empty. reflexivity.
  - intros key records Hk. split.
    + apply _load_data_lookup in Hk as [_ Hne]. exact Hne.
    + apply Forall_forall. intros job Hin.
      pose proof (_load_data_well_grouped doc key records job Hk Hin) as Hkey.
      rewrite <- Hkey. split; reflexivity.
Qed.

(** X2: loading a document made of two parts files, under every key, the
    records of the first part followed by the records of the second; a
    key is in the corpus exactly when one of the parts has it. *)
Theorem _load_data_app :
  forall jobs1 jobs2 key,
    _load_data (JsonArray (jobs1 ++ jobs2)) !!! key =
      _load_data (JsonArray jobs1) !!! key ++ _load_data (JsonArray jobs2) !!! key /\
    (is_Some (_load_data (JsonArray (jobs1 ++ jobs2)) !! key) <->
     is_Some (_load_data (JsonArray jobs1) !! key) \/
     is_Some (_load_data (JsonArray jobs2) !! key)).
Proof.
  intros jobs1 jobs2 key. unfold _load_data. cbn [job_dicts]. split.
  - rewrite !foldl_append_job_total, !lookup_total_empty.
    unfold records_with. rewrite filter_app. reflexivity.
  - rewrite !foldl_append_job_is_Some, lookup_empty.
    unfold records_with. rewrite filter_app.
    split.
    + intros [[? Hn]|Hne]; [discriminate Hn|].
      destruct (filter (fun job => job_key job = key) jobs1) eqn:E1.
      * right. right. exact Hne.
      * left. right. discriminate.
    + intros [[[? Hn]|Hne]|[[? Hn]|Hne]]; try discriminate Hn; right.
      * intros Happ. apply app_eq_nil in Happ as [H1 _]. contradiction.
      * intros Happ. apply app_eq_nil in Happ as [_ H2]. contradiction.
Qed.

(** ** Construction *)

Section Construction.

Context `{Collaborators}.

(** X3: the constructor raises in the order of its statements.  When
    building the qubit mapping raises, the constructor raises that very
    exception, whatever the descriptor, supported or not, and whatever
    the document.  When no qubit mapping is given or the one given is
    built, a descriptor of neither supported interface makes it raise the
    error of an unsupported backend.  And a backend that it returns has a
    supported descriptor, keeps the descriptor, the rounding flag and the
    built qubit mapping, and has a cursor for every key of its corpus and
    for no other key. *)
Theorem __init___raises_in_source_order :
  forall backend doc roundup qm,
    (forall m e,
       qm = Some m -> make_qubit_mapping m = inl e ->
       __init__ backend doc roundup qm = inl e) /\
    ((qm = None \/
      exists m built, qm = Some m /\ make_qubit_mapping m = inr built) ->
     backend = OtherBackend ->
     __init__ backend doc roundup qm = inl (BackendError "Backend not supported.")) /\
    (forall self,
       __init__ backend doc roundup qm = inr self ->
       backend <> OtherBackend /\
       _backend self = backend /\
       _enable_shots_roundup self = roundup /\
       match qm with
       | Some m =>
           exists built,
             make_qubit_mapping m = inr built /\ _qubit_mapping self = Some built
       | None => _qubit_mapping self = None
       end /\
       dom (_replay_memory self) = dom (_saved_data self)).
Proof.
  intros backend doc roundup qm. unfold __init__. split; [|split].
  - intros m e -> ->. reflexivity.
  - intros [->|(m & built & -> & ->)] ->; reflexivity.
  - intros self Hinit.
    destruct qm as [m|];
      [destruct (make_qubit_mapping m) as [e|built]; [discriminate Hinit|]|];
      destruct backend; try discriminate Hinit; injection Hinit as <-;
      cbn [_backend _enable_shots_roundup _qubit_mapping _replay_memory _saved_data];
      (split; [discriminate|]); (split; [reflexivity|]); (split; [reflexivity|]);
      (split; [|apply dom_fmap_L]);
      first [reflexivity | exists built; split; reflexivity].
Qed.

End Construction.

(** ** Which records a call serves *)

Lemma lookups_of_zero qasm_str key chunks :
  (forall s, s ∈ chunks -> (qasm_str, s) <> key) ->
  lookups_of qasm_str key chunks = 0.
Proof.
  intros Hnone. unfold lookups_of.
  rewrite filter_none; [reflexivity|]. exact Hnone.
Qed.

Lemma list_getitem_lt {A : Type} (l : list A) (i : Z) :
  0 <= i < Z.of_nat (length l) -> exists x, list_getitem l i = Some x.
Proof.
  intros [Hi Hlt]. unfold list_getitem.
  destruct (0 <=? i) eqn:E; [|apply Z.leb_gt in E; lia].
  apply lookup_lt_is_Some. lia.
Qed.

Lemma cursors_fit_advance saved_data replay_memory key records c
    (job : QiskitSavedDataSamplingJob) :
  cursors_fit saved_data replay_memory ->
  saved_data !! key = Some records ->
  replay_memory !! key = Some c ->
  list_getitem records c = Some job ->
  cursors_fit saved_data (<[key := c + 1]> replay_memory).
Proof.
  intros Hfit Hsd Hrm Hget key'. specialize (Hfit key').
  destruct (decide (key = key')) as [<-|Hne].
  - rewrite Hsd, Hrm in Hfit. rewrite Hsd, lookup_insert_eq.
    pose proof (list_getitem_Some records c job (proj1 Hfit) Hget). lia.
  - rewrite lookup_insert_ne by exact Hne. exact Hfit.
Qed.

Section SamplingFurther.

Context `{Collaborators}.

(** The record consumed for a chunk is the one at the cursor of the
    chunk's key, moved on by the earlier chunks of the same key. *)
Lemma sample_loop_fifo saved_data tc qasm_str :
  qasm tc = inr qasm_str ->
  forall shot_dist jobs replay_memory r jobs' replay_memory',
    sample_loop saved_data tc shot_dist jobs replay_memory =
      (r, jobs', replay_memory') ->
    exists new,
      jobs' = jobs ++ new /\
      forall i job, new !! i = Some job ->
        exists s records c,
          shot_dist !! i = Some s /\
          saved_data !! (qasm_str, s) = Some records /\
          replay_memory !! (qasm_str, s) = Some c /\
          list_getitem records
            (c + lookups_of qasm_str (qasm_str, s) (take i shot_dist)) = Some job.
Proof.
  intros Hq. induction shot_dist as [|s0 shot_dist IH];
    intros jobs replay_memory r jobs' replay_memory' Hloop.
  - cbn [sample_loop] in Hloop. injection Hloop as <- <- <-.
    exists []. rewrite app_nil_r. split; [reflexivity|]. intros i job Hi.
    rewrite lookup_nil in Hi. discriminate Hi.
  - cbn [sample_loop] in Hloop. rewrite Hq in Hloop.
    destruct (saved_data !! (qasm_str, s0)) as [records0|] eqn:Hsd0.
    + destruct (replay_memory !! (qasm_str, s0)) as [c0|] eqn:Hrm0.
      * destruct (list_getitem records0 c0) as [job0|] eqn:Hget.
        -- apply IH in Hloop as (new & -> & Hnew).
           exists (job0 :: new). rewrite <- app_assoc. split; [reflexivity|].
           intros [|i] job Hi.
           ++ injection Hi as <-. exists s0, records0, c0.
              split; [reflexivity|]. split; [exact Hsd0|]. split; [exact Hrm0|].
              cbn [take]. unfold lookups_of. cbn [filter list_filter length].
              rewrite Z.add_0_r. exact Hget.
           ++ cbn [lookup list_lookup] in Hi.
              destruct (Hnew i job Hi) as (s & records & c & Hs & Hsd & Hrm & Hjob).
              exists s, records.
              destruct (decide ((qasm_str, s0) = (qasm_str, s))) as [Heq|Hne].
              ** rewrite <- Heq in Hrm, Hjob |- *.
                 rewrite lookup_insert_eq in Hrm. injection Hrm as <-.
                 exists c0. split; [exact Hs|]. split; [congruence|].
                 split; [exact Hrm0|].
                 cbn [take]. rewrite lookups_of_cons, decide_True by reflexivity.
                 rewrite <- Hjob. f_equal. injection Heq as <-. lia.
              ** rewrite lookup_insert_ne in Hrm by exact Hne.
                 exists c. split; [exact Hs|]. split; [exact Hsd|].
                 split; [exact Hrm|].
                 cbn [take]. rewrite lookups_of_cons, decide_False by exact Hne.
                 rewrite Z.add_0_l. exact Hjob.
        -- injection Hloop as <- <- <-. exists []. rewrite app_nil_r.
           split; [reflexivity|]. intros i job Hi.
           rewrite lookup_nil in Hi. discriminate Hi.
      * injection Hloop as <- <- <-. exists []. rewrite app_nil_r.
        split; [reflexivity|]. intros i job Hi.
        rewrite lookup_nil in Hi. discriminate Hi.
    + injection Hloop as <- <- <-. exists []. rewrite app_nil_r.
      split; [reflexivity|]. intros i job Hi.
      rewrite lookup_nil in Hi. discriminate Hi.
Qed.

(** The body of [sample] either ends before the loop, having consumed
    nothing and changed nothing, or ends where the loop ends. *)
Lemma sample_body_inv self circuit n :
  ((sample_body self circuit n).1.2 = [] /\
   (sample_body self circuit n).2 = _replay_memory self) \/
  exists shot_dist tc qasm_str,
    qasm tc = inr qasm_str /\
    sample_body self circuit n =
    sample_loop (_saved_data self) tc shot_dist [] (_replay_memory self).
Proof.
  unfold sample_body.
  destruct (negb (n >=? 1)); [left; split; reflexivity|].
  destruct (shot_distributer _ _ _ _) as [e|shot_dist]; [left; split; reflexivity|].
  destruct (transpile _ _ _) as [e|tc]; [left; split; reflexivity|].
  destruct (qasm tc) as [e|qasm_str] eqn:Hq.
  - left. destruct shot_dist as [|s shot_dist]; [split; reflexivity|].
    rewrite (sample_loop_qasm_raises _ _ _ _ _ _ _ Hq). split; reflexivity.
  - right. exists shot_dist, tc, qasm_str. split; [exact Hq|reflexivity].
Qed.

(** X4: within one call the records of a key are served in their recorded
    order: the record consumed for the chunk at position [i] is the one
    its key's group holds at the key's cursor before the call plus the
    number of earlier chunks of the call that looked the same key up. *)
Theorem sample_serves_each_key_in_recorded_order
    self circuit n shot_dist tc qasm_str :
  1 <= n ->
  shot_distributer n (_min_shots self) (_max_shots self)
    (_enable_shots_roundup self) = inr shot_dist ->
  transpile (_backend self) (_qubit_mapping self) circuit = inr tc ->
  qasm tc = inr qasm_str ->
  forall i job,
    consumed self circuit n !! i = Some job ->
    exists s records c,
      shot_dist !! i = Some s /\
      _saved_data self !! (qasm_str, s) = Some records /\
      _replay_memory self !! (qasm_str, s) = Some c /\
      list_getitem records
        (c + lookups_of qasm_str (qasm_str, s) (take i shot_dist)) = Some job.
Proof.
  intros Hn Hdist Htc Hq i job Hi. unfold consumed in Hi.
  rewrite (sample_body_loop _ _ _ _ _ Hn Hdist Htc) in Hi.
  destruct (sample_loop _ tc shot_dist [] (_replay_memory self))
    as [[r jobs'] rm'] eqn:Hloop.
  destruct (sample_loop_fifo _ _ _ Hq _ _ _ _ _ _ Hloop) as (new & -> & Hnew).
  cbn [fst snd app] in Hi. exact (Hnew i job Hi).
Qed.

(** X5: a call leaves the backend exactly as it was if and only if it
    consumed no record; in particular a call that raises at its first
    chunk, or before the loop, changes nothing. *)
Theorem sample_changes_backend_iff_it_consumed :
  forall self circuit n,
    (sample self circuit n).2 = self <-> consumed self circuit n = [].
Proof.
  intros self circuit n. rewrite sample_snd. unfold consumed.
  destruct (sample_body_inv self circuit n)
    as [[Hc Hrm]|(shot_dist & tc & qasm_str & Hq & Hbody)].
  - rewrite Hc, Hrm, set_replay_memory_id. split; reflexivity.
  - rewrite Hbody.
    destruct (sample_loop _ tc shot_dist [] (_replay_memory self))
      as [[r jobs'] rm'] eqn:Hloop.
    destruct (sample_loop_spec _ _ _ Hq _ _ _ _ _ _ Hloop)
      as (new & -> & _ & Hcur & _).
    destruct (sample_loop_fifo _ _ _ Hq _ _ _ _ _ _ Hloop)
      as (new' & Hnew' & Hfifo).
    cbn [fst snd app] in *. subst new'. split.
    + intros Hself. apply (f_equal _replay_memory) in Hself.
      cbn [_replay_memory set_replay_memory] in Hself. subst rm'.
      destruct new as [|job new]; [reflexivity|]. exfalso.
      destruct (Hfifo 0%nat job eq_refl) as (s & records & c & Hs & _ & Hrm & _).
      destruct shot_dist as [|s' shot_dist]; [discriminate Hs|].
      injection Hs as ->.
      specialize (Hcur (qasm_str, s)). rewrite Hrm in Hcur.
      cbn [length take fmap option_fmap option_map] in Hcur.
      rewrite lookups_of_cons, decide_True in Hcur by reflexivity.
      injection Hcur as Hcur.
      pose proof (lookups_of_nonneg qasm_str (qasm_str, s)
                    (take (length new) shot_dist)) as Hpos.
      revert Hcur Hpos.
      generalize (lookups_of qasm_str (qasm_str, s) (take (length new) shot_dist)).
      intros k Hcur Hpos. lia.
    + intros ->. assert (rm' = _replay_memory self) as ->.
      { apply map_eq. intros key. rewrite Hcur.
        destruct (_replay_memory self !! key) as [c|]; [|reflexivity].
        cbn [length take fmap option_fmap option_map]. f_equal.
        rewrite take_0. change (lookups_of qasm_str key []) with 0. lia. }
      apply set_replay_memory_id.
Qed.

(** X6: a call moves no cursor but those of the keys it looks up: the
    cursor of a key of another circuit, or of a shot count that is not
    among the chunks of the call, is after the call what it was before. *)
Theorem sample_leaves_other_keys_alone
    self circuit n shot_dist tc qasm_str :
  1 <= n ->
  shot_distributer n (_min_shots self) (_max_shots self)
    (_enable_shots_roundup self) = inr shot_dist ->
  transpile (_backend self) (_qubit_mapping self) circuit = inr tc ->
  qasm tc = inr qasm_str ->
  forall key,
    key.1 <> qasm_str \/ key.2 ∉ shot_dist ->
    _replay_memory (sample self circuit n).2 !! key = _replay_memory self !! key.
Proof.
  intros Hn Hdist Htc Hq key Hother. rewrite sample_snd.
  rewrite (sample_body_loop _ _ _ _ _ Hn Hdist Htc).
  destruct (sample_loop _ tc shot_dist [] (_replay_memory self))
    as [[r jobs'] rm'] eqn:Hloop.
  destruct (sample_loop_spec _ _ _ Hq _ _ _ _ _ _ Hloop)
    as (new & _ & _ & Hcur & _).
  cbn [snd _replay_memory set_replay_memory]. rewrite Hcur.
  rewrite lookups_of_zero.
  - destruct (_replay_memory self !! key); [|reflexivity].
    cbn. f_equal. lia.
  - intros s Hin <-. cbn [fst snd] in Hother.
    destruct Hother as [Hne|Hnin]; [apply Hne; reflexivity|].
    apply Hnin. apply elem_of_take in Hin as (i & Hi & _).
    apply list_elem_of_lookup. exists i. exact Hi.
Qed.

(** X7: the job a call returns is made of the records it consumed, one
    per chunk and in the order of the chunks, each recorded for the
    canonical string of the circuit and for the shot count of its chunk,
    and it carries the qubit mapping of the backend. *)
Theorem returned_job_matches_request
    backend doc roundup qm self0 self circuit n shot_dist tc qasm_str served :
  __init__ backend doc roundup qm = inr self0 ->
  reachable self0 self ->
  1 <= n ->
  shot_distributer n (_min_shots self) (_max_shots self)
    (_enable_shots_roundup self) = inr shot_dist ->
  transpile (_backend self) (_qubit_mapping self) circuit = inr tc ->
  qasm tc = inr qasm_str ->
  (sample self circuit n).1 = inr served ->
  chunk_jobs served = consumed self circuit n /\
  job_qubit_mapping served = _qubit_mapping self /\
  Forall2 (fun job s => circuit_str job = qasm_str /\ n_shots job = s)
          (chunk_jobs served) shot_dist.
Proof.
  intros Hinit Hreach Hn Hdist Htc Hq Hserved.
  destruct (__init___inr _ _ _ _ _ Hinit) as (_ & _ & _ & Hsd0 & _).
  destruct (reachable_config _ _ Hreach) as (_ & _ & _ & _ & _ & Hsd).
  rewrite Hsd0 in Hsd.
  rewrite sample_fst in Hserved. unfold consumed in *.
  rewrite (sample_body_loop _ _ _ _ _ Hn Hdist Htc) in *.
  destruct (sample_loop _ tc shot_dist [] (_replay_memory self))
    as [[r jobs'] rm'] eqn:Hloop.
  destruct (sample_loop_spec _ _ _ Hq _ _ _ _ _ _ Hloop)
    as (new & -> & Hnew & _ & Hr).
  cbn [fst snd app] in *.
  destruct r as [e|]; [discriminate Hserved|]. injection Hserved as <-.
  cbn [chunk_jobs job_qubit_mapping job_processor].
  split; [reflexivity|]. split; [reflexivity|].
  rewrite Hr, firstn_all in Hnew.
  eapply Forall2_impl; [exact Hnew|].
  intros job s (records & Hrecords & Hin). cbn beta in *.
  rewrite Hsd in Hrecords.
  pose proof (_load_data_well_grouped doc _ _ _ Hrecords Hin) as Hkey.
  injection Hkey as <- <-. split; reflexivity.
Qed.

(** ** When a call returns *)

(** With a cursor table that fits the corpus, the loop consumes every
    chunk exactly when every chunk's key is in the corpus with enough
    records left for all the chunks of the call that look it up. *)
Lemma sample_loop_returns_iff saved_data tc qasm_str :
  qasm tc = inr qasm_str ->
  forall shot_dist jobs replay_memory,
    cursors_fit saved_data replay_memory ->
    (sample_loop saved_data tc shot_dist jobs replay_memory).1.1 = None <->
    forall s, s ∈ shot_dist ->
      exists records c,
        saved_data !! (qasm_str, s) = Some records /\
        replay_memory !! (qasm_str, s) = Some c /\
        c + lookups_of qasm_str (qasm_str, s) shot_dist <= Z.of_nat (length records).
Proof.
  intros Hq. induction shot_dist as [|s0 shot_dist IH]; intros jobs replay_memory Hfit.
  - split; [|reflexivity]. intros _ s Hin. apply elem_of_nil in Hin. contradiction.
  - cbn [sample_loop]. rewrite Hq.
    pose proof (Hfit (qasm_str, s0)) as Hfit0.
    assert (s0 ∈ s0 :: shot_dist) as Hin0 by (apply elem_of_cons; left; reflexivity).
    destruct (saved_data !! (qasm_str, s0)) as [records0|] eqn:Hsd0.
    2:{ split; [discriminate|]. intros Hen.
        destruct (Hen s0 Hin0) as (records & c & Hs & _). congruence. }
    destruct (replay_memory !! (qasm_str, s0)) as [c0|] eqn:Hrm0; [|contradiction].
    pose proof (lookups_of_nonneg qasm_str (qasm_str, s0) shot_dist) as Hpos.
    destruct (list_getitem records0 c0) as [job|] eqn:Hget.
    + pose proof (cursors_fit_advance _ _ _ _ _ _ Hfit Hsd0 Hrm0 Hget) as Hfit1.
      pose proof (list_getitem_Some _ _ _ (proj1 Hfit0) Hget) as Hlt.
      rewrite (IH _ _ Hfit1). split.
      * intros Hen s Hin. apply elem_of_cons in Hin as [->|Hin].
        -- exists records0, c0. split; [exact Hsd0|]. split; [exact Hrm0|].
           rewrite lookups_of_cons, decide_True by reflexivity.
           destruct (decide (s0 ∈ shot_dist)) as [Hin|Hnin].
           ++ destruct (Hen s0 Hin) as (records & c & Hs & Hc & Hle).
              rewrite Hsd0 in Hs. injection Hs as <-.
              rewrite lookup_insert_eq in Hc. injection Hc as <-. lia.
           ++ rewrite lookups_of_zero; [lia|].
              intros s Hs [= ->]. contradiction.
        -- destruct (Hen s Hin) as (records & c & Hs & Hc & Hle).
           exists records. rewrite lookups_of_cons.
           destruct (decide ((qasm_str, s0) = (qasm_str, s))) as [Heq|Hne].
           ++ rewrite <- Heq in Hc, Hle |- *.
              rewrite lookup_insert_eq in Hc. injection Hc as <-.
              exists c0. split; [congruence|]. split; [exact Hrm0|]. lia.
           ++ rewrite lookup_insert_ne in Hc by exact Hne.
              exists c. split; [exact Hs|]. split; [exact Hc|]. lia.
      * intros Hen s Hin.
        destruct (Hen s) as (records & c & Hs & Hc & Hle);
          [apply elem_of_cons; right; exact Hin|].
        rewrite lookups_of_cons in Hle. exists records.
        destruct (decide ((qasm_str, s0) = (qasm_str, s))) as [Heq|Hne].
        -- rewrite <- Heq in Hc, Hle |- *. rewrite Hrm0 in Hc. injection Hc as <-.
           exists (c0 + 1). split; [congruence|].
           split; [apply lookup_insert_eq|]. lia.
        -- exists c. split; [exact Hs|].
           split; [rewrite lookup_insert_ne by exact Hne; exact Hc|]. lia.
    + split; [discriminate|]. intros Hen. exfalso.
      destruct (Hen s0 Hin0) as (records & c & Hs & Hc & Hle).
      rewrite Hsd0 in Hs. injection Hs as <-. rewrite Hrm0 in Hc. injection Hc as <-.
      rewrite lookups_of_cons, decide_True in Hle by reflexivity.
      pose proof (list_getitem_None _ _ (proj1 Hfit0) Hget). lia.
Qed.

(** X8: on a backend reached from a construction, a call that gets past
    the argument check, the shot distributor and the conversion returns a
    job if and only if every chunk's key is in the corpus and has, from
    its cursor on, at least as many records as the call has chunks that
    look it up; otherwise it raises. *)
Theorem sample_returns_iff_enough_records
    backend doc roundup qm self0 self circuit n shot_dist tc qasm_str :
  __init__ backend doc roundup qm = inr self0 ->
  reachable self0 self ->
  1 <= n ->
  shot_distributer n (_min_shots self) (_max_shots self)
    (_enable_shots_roundup self) = inr shot_dist ->
  transpile (_backend self) (_qubit_mapping self) circuit = inr tc ->
  qasm tc = inr qasm_str ->
  (exists served, (sample self circuit n).1 = inr served) <->
  (forall s, s ∈ shot_dist ->
     exists records c,
       _saved_data self !! (qasm_str, s) = Some records /\
       _replay_memory self !! (qasm_str, s) = Some c /\
       c + lookups_of qasm_str (qasm_str, s) shot_dist <= Z.of_nat (length records)).
Proof.
  intros Hinit Hreach Hn Hdist Htc Hq.
  destruct (__init___inr _ _ _ _ _ Hinit) as (_ & _ & _ & Hsd0 & Hrm0).
  destruct (reachable_config _ _ Hreach) as (_ & _ & _ & _ & _ & Hsd).
  assert (cursors_fit (_saved_data self) (_replay_memory self)) as Hfit.
  { rewrite Hsd. apply reachable_cursors_fit; [|exact Hreach].
    rewrite Hrm0, Hsd0. apply cursors_fit_fresh. }
  rewrite <- (sample_loop_returns_iff _ _ _ Hq shot_dist [] _ Hfit).
  rewrite sample_fst, (sample_body_loop _ _ _ _ _ Hn Hdist Htc).
  destruct (sample_loop _ tc shot_dist [] (_replay_memory self)) as [[[e|] jobs'] rm'];
    cbn [fst snd].
  - split; [intros [served Hs]; discriminate Hs|discriminate].
  - split; [reflexivity|]. intros _. eexists. reflexivity.
Qed.

(** ** Replaying a whole recording *)

Lemma run_replays_recording rest :
  forall done self calls doc,
    job_dicts doc = done ++ rest ->
    _saved_data self = _load_data doc ->
    (forall key, is_Some (_load_data doc !! key) ->
       _replay_memory self !! key =
       Some (Z.of_nat (length (records_with key done)))) ->
    Forall2 (fun job call =>
               single_chunk_call self (circuit_str job) (n_shots job) call)
            rest calls ->
    (run self calls).*1 =
      (fun job => inr (job_processor [job] (_qubit_mapping self))) <$> rest /\
    forall final, last (run self calls) = Some final ->
      forall key records, _load_data doc !! key = Some records ->
        _replay_memory final.2 !! key = Some (Z.of_nat (length records)).
Proof.
  induction rest as [|job rest IH]; intros done self calls doc Hdoc Hsd Hcur Hcalls.
  - apply Forall2_nil_inv_l in Hcalls as ->. split; [reflexivity|].
    intros final Hfinal. discriminate Hfinal.
  - apply Forall2_cons_inv_l in Hcalls as (call & calls' & Hcall & Hcalls & ->).
    set (key := (circuit_str job, n_shots job)).
    assert (records_with key (job_dicts doc) =
              records_with key done ++ job :: records_with key rest) as Hgroup.
    { rewrite Hdoc. unfold records_with at 1. rewrite filter_app.
      fold (records_with key done). fold (records_with key (job :: rest)).
      rewrite records_with_cons, decide_True by reflexivity. reflexivity. }
    assert (_load_data doc !! key =
              Some (records_with key done ++ job :: records_with key rest))
      as Hrecords.
    { apply _load_data_lookup. split; [symmetry; exact Hgroup|].
      intros Hnil. apply app_eq_nil in Hnil as [_ Hnil]. discriminate Hnil. }
    assert (_replay_memory self !! key =
              Some (Z.of_nat (length (records_with key done)))) as Hc.
    { apply Hcur. rewrite Hrecords. eexists; reflexivity. }
    pose proof Hrecords as Hsample. rewrite <- Hsd in Hsample.
    apply (single_chunk_sample _ _ _ _ _
             (Z.of_nat (length (records_with key done))) Hcall)
      in Hsample; [|exact Hc].
    rewrite list_getitem_nat, list_lookup_middle in Hsample by reflexivity.
    destruct call as [circuit n]. cbn [fst snd] in Hsample.
    cbn [run]. rewrite Hsample. cbn [snd].
    change (circuit_str job, n_shots job) with key.
    set (self1 := set_replay_memory self
                    (<[key := Z.of_nat (length (records_with key done)) + 1]>
                       (_replay_memory self))) in *.
    assert (forall key', is_Some (_load_data doc !! key') ->
              _replay_memory self1 !! key' =
              Some (Z.of_nat (length (records_with key' (done ++ [job]))))) as Hcur1.
    { intros key' Hsome. unfold records_with. rewrite filter_app.
      fold (records_with key' done). fold (records_with key' [job]).
      rewrite records_with_cons.
      change (records_with key' []) with (@nil QiskitSavedDataSamplingJob).
      cbn [self1 _replay_memory set_replay_memory].
      destruct (decide (job_key job = key')) as [Heq|Hne].
      - change (job_key job) with key in Heq. subst key'.
        rewrite lookup_insert_eq, length_app. f_equal. cbn [length]. lia.
      - change (job_key job) with key in Hne.
        rewrite lookup_insert_ne by exact Hne.
        rewrite (Hcur key' Hsome), app_nil_r. reflexivity. }
    destruct (IH (done ++ [job]) self1 calls' doc) as [Hfst Hlast].
    { rewrite Hdoc, <- app_assoc. reflexivity. }
    { exact Hsd. }
    { exact Hcur1. }
    { eapply Forall2_impl; [exact Hcalls|]. intros j c Hjc. exact Hjc. }
    split.
    + cbn [fmap list_fmap fst]. f_equal. exact Hfst.
    + intros final Hfinal key' records Hkey'.
      rewrite last_cons in Hfinal.
      destruct (last (run self1 calls')) as [final'|] eqn:Hl.
      * injection Hfinal as <-. exact (Hlast _ eq_refl _ _ Hkey').
      * injection Hfinal as <-. cbn [snd].
        apply last_None in Hl. apply (f_equal length) in Hl.
        rewrite length_run in Hl. cbn [length] in Hl.
        apply Forall2_length in Hcalls. rewrite Hl in Hcalls.
        destruct rest; [|discriminate Hcalls].
        rewrite Hcur1 by (rewrite Hkey'; eexists; reflexivity).
        apply _load_data_lookup in Hkey' as [-> _]. rewrite Hdoc. reflexivity.
Qed.

(** X9: replaying a recording gives the recording back.  When the calls
    made on a fresh backend are single-chunk calls that ask, one after
    the other, for the circuit and the shot count of the records of the
    document in document order, every call returns, the call at each
    position returns the job made of the record at that position, and
    after the last call every key's cursor stands at the end of its
    records. *)
Theorem replay_reproduces_recording backend doc roundup qm self0 calls :
  __init__ backend doc roundup qm = inr self0 ->
  Forall2 (fun job call =>
             single_chunk_call self0 (circuit_str job) (n_shots job) call)
          (job_dicts doc) calls ->
  (run self0 calls).*1 =
    (fun job => inr (job_processor [job] (_qubit_mapping self0))) <$> job_dicts doc /\
  forall final, last (run self0 calls) = Some final ->
    forall key records, _load_data doc !! key = Some records ->
      _replay_memory final.2 !! key = Some (Z.of_nat (length records)).
Proof.
  intros Hinit Hcalls.
  destruct (__init___inr _ _ _ _ _ Hinit) as (_ & _ & _ & Hsd0 & Hrm0).
  apply (run_replays_recording (job_dicts doc) [] self0 calls doc).
  - reflexivity.
  - exact Hsd0.
  - intros key [records Hkey]. rewrite Hrm0, lookup_fmap, Hkey. reflexivity.
  - exact Hcalls.
Qed.

End SamplingFurther.

(** ** Histograms with plain bitstring keys *)

Lemma plain_bits_cons c s :
  plain_bits (String c s) = true ->
  (c = "0"%char \/ c = "1"%char) /\ plain_bits s = true.
Proof.
  cbn [plain_bits]. intros Hp. apply andb_true_iff in Hp as [Hc Hs].
  split; [|exact Hs]. apply orb_true_iff in Hc as [Hc|Hc];
    apply Ascii.eqb_eq in Hc; auto.
Qed.

Lemma scan_plain s : forall acc digits,
  plain_bits s = true ->
  PyInt.scan s acc digits false =
  Some (binary_value acc s,
        match s with EmptyString => digits | _ => true end, EmptyString).
Proof.
  induction s as [|c s IH]; intros acc digits Hp; [reflexivity|].
  apply plain_bits_cons in Hp as [[-> | ->] Hs]; cbn [PyInt.scan binary_value];
    rewrite (IH _ _ Hs); cbn [Ascii.eqb Bool.eqb]; destruct s;
    rewrite ?Z.add_0_r; reflexivity.
Qed.

(** A plain bitstring is a literal, and reads as the number its digits
    write. *)
Lemma int_base2_plain s :
  plain_bits s = true -> s <> EmptyString ->
  PyInt.int_base2 s = Some (binary_value 0 s).
Proof.
  intros Hp Hne. destruct s as [|c s]; [contradiction|].
  pose proof (scan_plain (String c s) 0 false Hp) as Hscan.
  apply plain_bits_cons in Hp as [Hc Hs].
  assert (PyInt.take_prefix (String c s) = String c s) as Hprefix.
  { destruct Hc as [-> | ->]; [|reflexivity].
    destruct s as [|c' s]; [reflexivity|].
    apply plain_bits_cons in Hs as [[-> | ->] _]; reflexivity. }
  unfold PyInt.int_base2.
  assert (PyInt.skip_spaces (String c s) = String c s) as ->
    by (destruct Hc as [-> | ->]; reflexivity).
  assert (PyInt.take_sign (String c s) = (1, String c s)) as ->
    by (destruct Hc as [-> | ->]; reflexivity).
  rewrite Hprefix, Hscan.
  destruct Hc as [-> | ->]; cbn; f_equal;
    destruct (binary_value _ s); reflexivity.
Qed.

Lemma binary_value_acc s : forall acc,
  binary_value acc s =
  acc * 2 ^ Z.of_nat (String.length s) + binary_value 0 s /\
  0 <= binary_value 0 s < 2 ^ Z.of_nat (String.length s).
Proof.
  induction s as [|c s IH]; intros acc.
  - cbn [binary_value String.length]. change (2 ^ Z.of_nat 0) with 1. lia.
  - cbn [binary_value String.length]. rewrite Nat2Z.inj_succ, Z.pow_succ_r by lia.
    destruct (IH (2 * acc + (if (c =? "1")%char then 1 else 0))) as [-> Hb].
    destruct (IH (2 * 0 + (if (c =? "1")%char then 1 else 0))) as [-> _].
    split; [ring|]. destruct (c =? "1")%char; lia.
Qed.

(** Plain bitstrings of one width that write the same number are the
    same string. *)
Lemma binary_value_inj s1 : forall s2,
  plain_bits s1 = true -> plain_bits s2 = true ->
  String.length s1 = String.length s2 ->
  binary_value 0 s1 = binary_value 0 s2 -> s1 = s2.
Proof.
  induction s1 as [|c1 s1 IH]; intros [|c2 s2] Hp1 Hp2 Hlen Hval;
    try discriminate Hlen; [reflexivity|].
  apply plain_bits_cons in Hp1 as [Hc1 Hs1].
  apply plain_bits_cons in Hp2 as [Hc2 Hs2].
  injection Hlen as Hlen. cbn [binary_value] in Hval.
  destruct (binary_value_acc s1 (2 * 0 + (if (c1 =? "1")%char then 1 else 0)))
    as [Hv1 Hb1].
  destruct (binary_value_acc s2 (2 * 0 + (if (c2 =? "1")%char then 1 else 0)))
    as [Hv2 Hb2].
  rewrite Hv1, Hv2, <- Hlen in Hval. rewrite <- Hlen in Hb2.
  assert (c1 = c2 /\ binary_value 0 s1 = binary_value 0 s2) as [-> Hrest].
  { revert Hval Hb1 Hb2. generalize (2 ^ Z.of_nat (String.length s1)).
    generalize (binary_value 0 s1). generalize (binary_value 0 s2).
    intros v2 v1 p Hval Hb1 Hb2.
    destruct Hc1 as [-> | ->], Hc2 as [-> | ->];
      cbn [Ascii.eqb Bool.eqb] in Hval; split; try reflexivity; lia. }
  f_equal. apply IH; assumption.
Qed.

(** X10: a histogram whose keys are pairwise distinct plain bitstrings of
    one positive width loses nothing in [counts]: the property returns a
    histogram with one entry per raw entry, files every count under the
    number its key writes in binary, which is below 2 to the width, and
    keeps the total. *)
Theorem counts_of_fixed_width_bitstrings self width :
  (0 < width)%nat ->
  Forall (fun kv => plain_bits kv.1 = true /\ String.length kv.1 = width)
         (raw_data self) ->
  NoDup (raw_data self).*1 ->
  exists m,
    counts self = inr m /\
    size m = length (raw_data self) /\
    total_counts m = total_raw (raw_data self) /\
    forall s v, (s, v) ∈ raw_data self ->
      m !! binary_value 0 s = Some v /\
      0 <= binary_value 0 s < 2 ^ Z.of_nat width.
Proof.
  intros Hwidth Hplain Hnodup.
  assert (forall kv, kv ∈ raw_data self ->
            int_base2 kv.1 = inr (binary_value 0 kv.1)) as Hread.
  { intros kv Hin. rewrite Forall_forall in Hplain.
    destruct (Hplain kv Hin) as [Hp Hlen]. unfold int_base2.
    rewrite int_base2_plain; [reflexivity|exact Hp|].
    intros Hempty. rewrite Hempty in Hlen. cbn in Hlen. lia. }
  destruct (proj1 (counts_loop_literals (raw_data self) ∅)) as [m Hm].
  { apply Forall_forall. intros kv Hin. eexists. apply Hread. exact Hin. }
  assert (NoDup (int_keys (raw_data self))) as Hnd.
  { unfold int_keys.
    change (NoDup (int_base2 ∘ fst <$> raw_data self)).
    rewrite (list_fmap_compose fst int_base2 (raw_data self)).
    apply NoDup_fmap_2_strong; [|exact Hnodup].
    intros s1 s2 Hs1 Hs2 Heq.
    apply list_elem_of_fmap in Hs1 as (kv1 & -> & Hin1).
    apply list_elem_of_fmap in Hs2 as (kv2 & -> & Hin2).
    rewrite (Hread _ Hin1), (Hread _ Hin2) in Heq. injection Heq as Heq.
    rewrite Forall_forall in Hplain.
    destruct (Hplain _ Hin1) as [Hp1 Hl1]. destruct (Hplain _ Hin2) as [Hp2 Hl2].
    apply binary_value_inj; [exact Hp1|exact Hp2|congruence|exact Heq]. }
  destruct (counts_distinct self m Hm Hnd) as (Hsize & Hentries & Htotal).
  exists m. split; [exact Hm|]. split; [exact Hsize|]. split; [exact Htotal|].
  intros s v Hin. destruct (Hentries s v Hin) as (k & Hk & Hmk).
  pose proof (Hread (s, v) Hin) as Hs. cbn [fst] in Hs.
  rewrite Hs in Hk. injection Hk as <-.
  split; [exact Hmk|].
  rewrite Forall_forall in Hplain. destruct (Hplain _ Hin) as [_ <-].
  apply (binary_value_acc s 0).
Qed.

(** ** Histograms with a key that is no literal *)

Lemma counts_loop_inl items : forall m0 e,
  counts_loop items m0 = inl e ->
  exists earlier s v later,
    items = earlier ++ (s, v) :: later /\
    Forall (fun kv => exists k, int_base2 kv.1 = inr k) earlier /\
    PyInt.int_base2 s = None /\ e = InvalidLiteral s.
Proof.
  induction items as [|[s n] items IH]; intros m0 e Hloop;
    cbn [counts_loop] in Hloop; [discriminate Hloop|].
  destruct (int_base2 s) as [e'|k] eqn:Hs.
  - injection Hloop as <-. exists [], s, n, items.
    split; [reflexivity|]. split; [constructor|].
    unfold int_base2 in Hs. destruct (PyInt.int_base2 s); [discriminate Hs|].
    injection Hs as <-. split; reflexivity.
  - destruct (IH _ _ Hloop) as (earlier & s' & v & later & -> & Hearlier & Hs' & ->).
    exists ((s, n) :: earlier), s', v, later.
    split; [reflexivity|]. split; [|split; [exact Hs'|reflexivity]].
    constructor; [eexists; exact Hs|exact Hearlier].
Qed.

(** X11: [counts] raises exactly when some key of [raw_data] is no base-2
    literal, and then raises the error of the first such key in iteration
    order; no later key is looked at. *)
Theorem counts_raises_at_first_malformed_key :
  forall self e,
    counts self = inl e <->
    exists earlier s v later,
      raw_data self = earlier ++ (s, v) :: later /\
      Forall (fun kv => exists k, int_base2 kv.1 = inr k) earlier /\
      PyInt.int_base2 s = None /\ e = InvalidLiteral s.
Proof.
  intros self e. unfold counts. split; [apply counts_loop_inl|].
  intros (earlier & s & v & later & -> & Hearlier & Hs & ->).
  rewrite counts_loop_app.
  destruct (proj1 (counts_loop_literals earlier ∅) Hearlier) as [m1 ->].
  cbn [counts_loop]. unfold int_base2. rewrite Hs. reflexivity.
Qed.

(** ** How many entries [counts] keeps *)

Lemma counts_loop_size items : forall m0 m,
  counts_loop items m0 = inr m ->
  (size m <= size m0 + length items)%nat /\
  (size m = (size m0 + length items)%nat ->
   NoDup (int_keys items) /\
   forall k, inr k ∈ int_keys items -> m0 !! k = None).
Proof.
  induction items as [|[s n] items IH]; intros m0 m Hloop;
    cbn [counts_loop] in Hloop.
  - injection Hloop as <-. cbn [length]. split; [lia|]. intros _.
    split; [constructor|]. intros k Hk. apply elem_of_nil in Hk. contradiction.
  - destruct (int_base2 s) as [e|k0] eqn:Hs; [discriminate Hloop|].
    destruct (IH _ _ Hloop) as [Hle Heq].
    pose proof (map_size_insert k0 n m0) as Hins.
    unfold int_keys. cbn [fmap list_fmap fst length]. rewrite Hs.
    fold (int_keys items).
    destruct (m0 !! k0) as [old|] eqn:Hm0; unfold id in Hins.
    + split; [lia|]. intros Hsize. lia.
    + split; [lia|]. intros Hsize.
      destruct Heq as [Hnd Hfresh]; [lia|].
      assert (inr k0 ∉ int_keys items) as Hnotin.
      { intros Hin. specialize (Hfresh k0 Hin).
        rewrite lookup_insert_eq in Hfresh. discriminate Hfresh. }
      split; [apply NoDup_cons; split; assumption|].
      intros k Hk. apply elem_of_cons in Hk as [[= ->]|Hk]; [exact Hm0|].
      specialize (Hfresh k Hk).
      rewrite lookup_insert_ne in Hfresh; [exact Hfresh|].
      intros <-. contradiction.
Qed.

Lemma NoDup_fmap_inj_on {A B : Type} (f : A -> B) (l : list A) :
  NoDup (f <$> l) ->
  forall x y, x ∈ l -> y ∈ l -> f x = f y -> x = y.
Proof.
  induction l as [|a l IH]; intros Hnd x y Hx Hy Hf.
  - apply elem_of_nil in Hx. contradiction.
  - cbn [fmap list_fmap] in Hnd. apply NoDup_cons in Hnd as [Ha Hnd].
    apply elem_of_cons in Hx as [->|Hx]; apply elem_of_cons in Hy as [->|Hy].
    + reflexivity.
    + exfalso. apply Ha. rewrite Hf. apply list_elem_of_fmap_2. exact Hy.
    + exfalso. apply Ha. rewrite <- Hf. apply list_elem_of_fmap_2. exact Hx.
    + apply IH; assumption.
Qed.

(** X12: the histogram [counts] returns never has more entries than
    [raw_data], and it has as many exactly when the keys of [raw_data]
    read as pairwise distinct integers; with two keys that read as the
    same integer it has fewer. *)
Theorem counts_keeps_size_iff_keys_distinct self m :
  counts self = inr m ->
  (size m <= length (raw_data self))%nat /\
  (size m = length (raw_data self) <-> NoDup (int_keys (raw_data self))).
Proof.
  intros Hm. pose proof Hm as Hloop. unfold counts in Hloop.
  destruct (counts_loop_size _ _ _ Hloop) as [Hle Heq].
  rewrite map_size_empty in Hle, Heq. cbn [Nat.add] in Hle, Heq.
  split; [exact Hle|]. split.
  - intros Hsize. apply Heq. exact Hsize.
  - intros Hnd. apply (counts_distinct self m Hm Hnd).
Qed.

(** X13: a plain bitstring and the same bitstring with a 0 put in front
    read as the same integer; so when [raw_data] has both as keys,
    [counts] returns a histogram with fewer entries than [raw_data]. *)
Theorem counts_merges_zero_padded_keys self m s v1 v2 :
  plain_bits s = true -> s <> EmptyString ->
  (s, v1) ∈ raw_data self ->
  (String "0" s, v2) ∈ raw_data self ->
  counts self = inr m ->
  int_base2 (String "0" s) = int_base2 s /\
  (size m < length (raw_data self))%nat.
Proof.
  intros Hp Hne Hin1 Hin2 Hm.
  assert (int_base2 (String "0" s) = int_base2 s) as Hsame.
  { unfold int_base2. rewrite (int_base2_plain s Hp Hne).
    rewrite (int_base2_plain (String "0" s));
      [reflexivity|cbn [plain_bits]; rewrite Hp; reflexivity|discriminate]. }
  split; [exact Hsame|].
  pose proof Hm as Hloop. unfold counts in Hloop.
  destruct (counts_loop_size _ _ _ Hloop) as [Hle Heq].
  rewrite map_size_empty in Hle, Heq. cbn [Nat.add] in Hle, Heq.
  destruct (decide (size m = length (raw_data self))) as [Hsize|Hsize]; [|lia].
  exfalso. destruct (Heq Hsize) as [Hnd _].
  assert ((String "0" s, v2) = (s, v1)) as Hpair.
  { apply (NoDup_fmap_inj_on (fun kv : string * Z => int_base2 kv.1)
             (raw_data self) Hnd); [exact Hin2|exact Hin1|exact Hsame]. }
  injection Hpair as Hs _. apply (f_equal String.length) in Hs.
  cbn [String.length] in Hs. lia.
Qed.

(** * The claims at concrete inputs *)

Import Scenario.

Local Open Scope string_scope.

(** C1 as stated fails: with a qubit mapping that exchanges the qubits 0
    and 1, the corpus holds one record under ("abc", 100), whose histogram
    {"01": 100} sums to its shot count; the first single-chunk call for
    that key returns a job whose histogram is {2: 100}, which sums to 100
    but is not the stored histogram {1: 100}. *)
Lemma served_histogram_not_always_as_claimed :
  @__init__ env (BackendV1 100) document_swapped true (Some [(0, 1); (1, 0)]) =
    inr mapped /\
  _load_data document_swapped !! ("abc", 100) = Some [swapped01] /\
  _replay_memory mapped !! ("abc", 100) = Some 0 /\
  @single_chunk_call env mapped "abc" 100 ("abc", 100) /\
  total_raw (raw_data (result swapped01)) = 100 /\
  counts (result swapped01) = inr {[1 := 100]} /\
  exists served,
    (@sample env mapped "abc" 100).1 = inr served /\
    result_counts served = inr {[2 := 100]} /\
    result_counts served <> counts (result swapped01).
Proof.
  split; [reflexivity|]. split; [vm_compute; reflexivity|].
  split; [vm_compute; reflexivity|]. split.
  { split; [simpl; lia|]. split; [reflexivity|].
    exists "abc". split; reflexivity. }
  split; [vm_compute; reflexivity|].
  assert (counts (result swapped01) = inr {[1 := 100]}) as Hstored
    by (vm_compute; reflexivity).
  split; [exact Hstored|].
  eexists. split; [vm_compute; reflexivity|].
  assert (forall served : exception + SamplingCounts,
            served = inr {[2 := 100]} ->
            served = inr {[2 := 100]} /\ served <> counts (result swapped01))
    as Hboth.
  { intros served ->. split; [reflexivity|]. rewrite Hstored.
    intros Heq.
    apply (f_equal (fun r : exception + SamplingCounts =>
                      match r with inr m => m !! 2 | inl _ => None end)) in Heq.
    vm_compute in Heq. discriminate Heq. }
  apply Hboth. vm_compute. reflexivity.
Qed.

Lemma first_single_chunk_call_replays_record_witness :
  (@__init__ env (BackendV1 100) document_swapped true (Some [(0, 1); (1, 0)]) =
     inr mapped /\
   @reachable env mapped mapped /\
   _load_data document_swapped !! ("abc", 100) = Some [swapped01] /\
   _replay_memory mapped !! ("abc", 100) = Some 0 /\
   @single_chunk_call env mapped "abc" 100 ("abc", 100) /\
   counts (result swapped01) = inr {[1 := 100]} /\
   NoDup (int_keys (raw_data (result swapped01))) /\
   total_raw (raw_data (result swapped01)) = n_shots swapped01 /\
   exists served m,
     (@sample env mapped "abc" 100).1 = inr served /\
     chunk_jobs served = [swapped01] /\
     result_counts served = inr m /\ total_counts m = 100) /\
  (@__init__ env (BackendV1 100) document_abc true None = inr fresh /\
   @reachable env fresh fresh /\
   _load_data document_abc !! ("abc", 100) = Some [abc100] /\
   _replay_memory fresh !! ("abc", 100) = Some 0 /\
   @single_chunk_call env fresh "abc" 100 ("abc", 100) /\
   counts (result abc100) = inr {[0 := 60; 7 := 40]} /\
   NoDup (int_keys (raw_data (result abc100))) /\
   total_raw (raw_data (result abc100)) = n_shots abc100 /\
   exists served,
     (@sample env fresh "abc" 100).1 = inr served /\
     chunk_jobs served = [abc100] /\
     result_counts served = counts (result abc100) /\
     exists m, result_counts served = inr m /\ total_counts m = 100).
Proof.
  assert (forall self, @single_chunk_call env self "abc" 100 ("abc", 100) <->
            @shot_distributer env 100 (_min_shots self) (_max_shots self)
              (_enable_shots_roundup self) = inr [100]) as Hcall.
  { intros self. split; [intros (_ & Hd & _); exact Hd|].
    intros Hd. split; [simpl; lia|]. split; [exact Hd|].
    exists "abc". split; reflexivity. }
  assert (forall items : list (string * Z),
            NoDup (int_keys items) <-> NoDup (int_keys items)) as _ by reflexivity.
  split.
  - assert (NoDup (int_keys (raw_data (result swapped01)))) as Hnd
      by (vm_compute; repeat constructor; rewrite ?elem_of_nil; auto).
    destruct (@first_single_chunk_call_replays_record env
                (BackendV1 100) document_swapped true (Some [(0, 1); (1, 0)])
                mapped mapped "abc" 100 "abc" swapped01 {[1 := 100]})
      as (served & self' & Hsample & Hjobs & _ & _ & _ & m & Hm & Hsum);
      [reflexivity|constructor|vm_compute; reflexivity|vm_compute; reflexivity
      |apply Hcall; reflexivity|vm_compute; reflexivity|exact Hnd
      |vm_compute; reflexivity|].
    split; [reflexivity|]. split; [constructor|].
    split; [vm_compute; reflexivity|]. split; [vm_compute; reflexivity|].
    split; [apply Hcall; reflexivity|]. split; [vm_compute; reflexivity|].
    split; [exact Hnd|]. split; [vm_compute; reflexivity|].
    exists served, m. rewrite Hsample. cbn [fst]. auto.
  - assert (NoDup (int_keys (raw_data (result abc100)))) as Hnd.
    { vm_compute. repeat constructor; rewrite ?elem_of_cons, ?elem_of_nil;
        intros Hin; repeat destruct Hin as [Hin|Hin]; try discriminate Hin;
        exact Hin. }
    destruct (@first_single_chunk_call_replays_record env
                (BackendV1 100) document_abc true None
                fresh fresh "abc" 100 "abc" abc100 {[0 := 60; 7 := 40]})
      as (served & self' & Hsample & Hjobs & _ & _ & Hsame & Hsum);
      [reflexivity|constructor|vm_compute; reflexivity|vm_compute; reflexivity
      |apply Hcall; reflexivity|vm_compute; reflexivity|exact Hnd
      |vm_compute; reflexivity|].
    split; [reflexivity|]. split; [constructor|].
    split; [vm_compute; reflexivity|]. split; [vm_compute; reflexivity|].
    split; [apply Hcall; reflexivity|]. split; [vm_compute; reflexivity|].
    split; [exact Hnd|]. split; [vm_compute; reflexivity|].
    exists served. rewrite Hsample. cbn [fst].
    split; [reflexivity|]. split; [exact Hjobs|].
    split; [apply Hsame; reflexivity|exact Hsum].
Defined.

Lemma failed_call_keeps_cursor_increments_witness :
  1 <= 150 /\
  @shot_distributer env 150 (_min_shots fresh) (_max_shots fresh)
    (_enable_shots_roundup fresh) = inr [100; 50] /\
  @transpile env (_backend fresh) (_qubit_mapping fresh) "abc" = inr "abc" /\
  @qasm env "abc" = inr "abc" /\
  (@sample env fresh "abc" 150).1 = inl MissingExperimentError /\
  _replay_memory fresh !! ("abc", 100) = Some 0 /\
  _replay_memory (@sample env fresh "abc" 150).2 !! ("abc", 100) = Some 1 /\
  (forall calls,
     @run env fresh (("abc", 150) :: calls) =
     (inl MissingExperimentError, (@sample env fresh "abc" 150).2)
       :: @run env (@sample env fresh "abc" 150).2 calls) /\
  (@sample env (@sample env fresh "abc" 150).2 "abc" 100).1 = inl ReplayExhaustedError.
Proof.
  assert ((@sample env fresh "abc" 150).1 = inl MissingExperimentError) as Hfail
    by (vm_compute; reflexivity).
  destruct (@failed_call_keeps_cursor_increments env fresh "abc" 150 [100; 50]
              "abc" "abc" MissingExperimentError)
    as (_ & _ & Hcursor & _ & Hrun & _);
    [lia|reflexivity|reflexivity|reflexivity|exact Hfail|].
  split; [lia|]. split; [reflexivity|]. split; [reflexivity|].
  split; [reflexivity|]. split; [exact Hfail|].
  split; [vm_compute; reflexivity|]. split.
  { rewrite (Hcursor ("abc", 100)). vm_compute. reflexivity. }
  split; [exact Hrun|]. vm_compute. reflexivity.
Defined.

Lemma replay_exhausted_exactly_on_excess_witness :
  @__init__ env (BackendV1 100) document_abc true None = inr fresh /\
  _load_data document_abc !! ("abc", 100) = Some [abc100] /\
  Forall (@single_chunk_call env fresh "abc" 100)
    [("abc", 100); ("abc", 100); ("abc", 100)] /\
  length (@run env fresh [("abc", 100); ("abc", 100); ("abc", 100)]) = 3%nat /\
  forall i r,
    @run env fresh [("abc", 100); ("abc", 100); ("abc", 100)] !! i = Some r ->
    (forall job, [abc100] !! i = Some job ->
       r.1 = inr (job_processor [job] (_qubit_mapping fresh))) /\
    ((length [abc100] <= i)%nat -> r.1 = inl ReplayExhaustedError).
Proof.
  assert (@single_chunk_call env fresh "abc" 100 ("abc", 100)) as Hcall.
  { split; [simpl; lia|]. split; [reflexivity|].
    exists "abc". split; reflexivity. }
  assert (Forall (@single_chunk_call env fresh "abc" 100)
            [("abc", 100); ("abc", 100); ("abc", 100)]) as Hcalls
    by (repeat first [exact Hcall | constructor]).
  split; [reflexivity|]. split; [vm_compute; reflexivity|]. split; [exact Hcalls|].
  apply (@replay_exhausted_exactly_on_excess env
           (BackendV1 100) document_abc true None fresh "abc" 100 [abc100]).
  - reflexivity.
  - vm_compute; reflexivity.
  - exact Hcalls.
Defined.

(** C4 as stated fails: after the one record of ("abc", 100) was
    replayed, a request of 150 shots is cut into the chunks 100 and 50;
    the key of the chunk 50 is absent from the corpus, yet the call
    raises the replay-exhausted error, at the chunk 100. *)
Lemma absent_chunk_can_raise_replay_exhausted :
  @reachable env fresh used /\
  @shot_distributer env 150 (_min_shots used) (_max_shots used)
    (_enable_shots_roundup used) = inr [100; 50] /\
  @transpile env (_backend used) (_qubit_mapping used) "abc" = inr "abc" /\
  @qasm env "abc" = inr "abc" /\
  _saved_data used !! ("abc", 50) = None /\
  (@sample env used "abc" 150).1 = inl ReplayExhaustedError /\
  (@sample env used "abc" 150).1 <> inl MissingExperimentError.
Proof.
  assert ((@sample env used "abc" 150).1 = inl ReplayExhaustedError) as Hfail
    by (vm_compute; reflexivity).
  split; [apply (@reachable_sample env fresh fresh "abc" 100); constructor|].
  split; [reflexivity|]. split; [reflexivity|]. split; [reflexivity|].
  split; [vm_compute; reflexivity|]. split; [exact Hfail|].
  rewrite Hfail. discriminate.
Qed.

Lemma absent_chunk_fails_call_witness :
  @__init__ env (BackendV1 100) document_abc true None = inr fresh /\
  @reachable env fresh fresh /\
  1 <= 150 /\
  @shot_distributer env 150 (_min_shots fresh) (_max_shots fresh)
    (_enable_shots_roundup fresh) = inr [100; 50] /\
  @transpile env (_backend fresh) (_qubit_mapping fresh) "abc" = inr "abc" /\
  @qasm env "abc" = inr "abc" /\
  _saved_data fresh !! ("abc", 50) = None /\
  (forall s', s' ∈ [100] -> is_Some (_saved_data fresh !! ("abc", s'))) /\
  (@sample env fresh "abc" 150).1 = inl MissingExperimentError /\
  length (@consumed env fresh "abc" 150) = 1%nat.
Proof.
  assert (forall s', s' ∈ [100] -> is_Some (_saved_data fresh !! ("abc", s')))
    as Hpresent.
  { intros s' Hin. apply list_elem_of_singleton in Hin. subst s'.
    exists [abc100]. vm_compute. reflexivity. }
  destruct (@absent_chunk_fails_call env (BackendV1 100) document_abc true None
              fresh fresh "abc" 150 "abc" "abc" [100] 50 [])
    as (_ & Hmissing & _);
    [reflexivity|constructor|lia|reflexivity|reflexivity|reflexivity
    |vm_compute; reflexivity|exact Hpresent|].
  split; [reflexivity|]. split; [constructor|]. split; [lia|].
  split; [reflexivity|]. split; [reflexivity|]. split; [reflexivity|].
  split; [vm_compute; reflexivity|]. split; [exact Hpresent|].
  apply Hmissing. vm_compute. reflexivity.
Defined.

Lemma sample_rejects_nonpositive_shots_witness :
  0 <= 0 /\
  @sample env fresh "abc" 0 = (inl InvalidArgument, fresh) /\
  @consumed env fresh "abc" 0 = [].
Proof.
  split; [lia|].
  apply (@sample_rejects_nonpositive_shots env fresh "abc" 0). lia.
Defined.

Lemma corpus_fixed_and_cursors_bounded_witness :
  @__init__ env (BackendV1 100) document_abc true None = inr fresh /\
  _saved_data fresh = _load_data document_abc /\
  (forall key,
     _replay_memory fresh !! key = (fun _ => 0) <$> _load_data document_abc !! key) /\
  forall self, @reachable env fresh self ->
    _saved_data self = _load_data document_abc /\
    cursors_fit (_load_data document_abc) (_replay_memory self) /\
    forall circuit n key c,
      _replay_memory self !! key = Some c ->
      _replay_memory (@sample env self circuit n).2 !! key =
      Some (c + Z.of_nat (length (records_with key (@consumed env self circuit n)))).
Proof.
  split; [reflexivity|].
  apply (@corpus_fixed_and_cursors_bounded env (BackendV1 100) document_abc true None).
  reflexivity.
Defined.

(** C8 as stated fails: a descriptor of the newer interface whose device
    reports a limit of 100 shots is supported, and the backend constructed
    from it has no maximum shot count, where the descriptor of the older
    interface with the same limit gives the maximum 100. *)
Lemma newer_descriptor_limit_is_not_read :
  exists self1 self2,
    @__init__ env (BackendV1 100) document_abc true None = inr self1 /\
    _max_shots self1 = Some 100 /\
    @__init__ env (BackendV2 (Some 100)) document_abc true None = inr self2 /\
    _min_shots self2 = 1 /\
    _max_shots self2 = None /\
    _max_shots self2 <> Some 100.
Proof.
  do 2 eexists. split; [reflexivity|]. split; [reflexivity|].
  split; [reflexivity|]. split; [reflexivity|]. split; [reflexivity|].
  discriminate.
Qed.

Lemma shot_bounds_from_descriptor_witness :
  (exists self0,
     @__init__ env (BackendV1 100) document_abc true None = inr self0 /\
     BackendV1 100 <> OtherBackend /\
     forall self, @reachable env self0 self ->
       _min_shots self = 1 /\ _max_shots self = Some 100) /\
  (exists self0,
     @__init__ env (BackendV2 (Some 100)) document_abc true None = inr self0 /\
     BackendV2 (Some 100) <> OtherBackend /\
     forall self, @reachable env self0 self ->
       _min_shots self = 1 /\ _max_shots self = None) /\
  (exists self0,
     @__init__ env (BackendV1 0) document_abc true (Some [(0, 1); (1, 0)]) =
       inr self0 /\
     forall self, @reachable env self0 self ->
       _min_shots self = 1 /\ _max_shots self = None).
Proof.
  split; [|split].
  - eexists. split; [reflexivity|].
    destruct (@shot_bounds_from_descriptor env (BackendV1 100) document_abc true
                None _ eq_refl) as [Hsupported Hbounds].
    split; [exact Hsupported|]. intros self Hreach.
    destruct (Hbounds self Hreach) as (Hmin & Hmax & _).
    split; [exact Hmin|]. apply (Hmax 100); [reflexivity|lia].
  - eexists. split; [reflexivity|].
    destruct (@shot_bounds_from_descriptor env (BackendV2 (Some 100))
                document_abc true None _ eq_refl) as [Hsupported Hbounds].
    split; [exact Hsupported|]. intros self Hreach.
    destruct (Hbounds self Hreach) as (Hmin & _ & _ & Hmax).
    split; [exact Hmin|]. apply (Hmax (Some 100)). reflexivity.
  - eexists. split; [reflexivity|].
    destruct (@shot_bounds_from_descriptor env (BackendV1 0) document_abc true
                (Some [(0, 1); (1, 0)]) _ eq_refl) as [_ Hbounds].
    intros self Hreach.
    destruct (Hbounds self Hreach) as (Hmin & _ & Hmax & _).
    split; [exact Hmin|]. apply (Hmax 0); [reflexivity|lia].
Defined.

Lemma export_then_load_groups_by_key_witness :
  _load_data_str session_text = Some (_load_data document_session) /\
  corpus_records (_load_data document_session) = [abc50; abc100; abc100b] /\
  _load_data_str (convert_saved_jobs_sequence_to_str [abc50; abc100; abc100b]) =
    Some (_load_data document_session) /\
  [abc50; abc100; abc100b] ≡ₚ [abc100; abc50; abc100b].
Proof.
  assert (loads_document session_text = Some document_session) as Hdoc
    by (vm_compute; reflexivity).
  assert (_load_data_str session_text = Some (_load_data document_session))
    as Hload by (unfold _load_data_str; rewrite Hdoc; reflexivity).
  assert (corpus_records (_load_data document_session) = [abc50; abc100; abc100b])
    as Hrecords by (vm_compute; reflexivity).
  destruct (export_then_load_groups_by_key session_text
              (_load_data document_session) Hload)
    as (Hround & _ & document & Hdoc' & _ & Hperm & _).
  rewrite Hdoc in Hdoc'. injection Hdoc' as <-.
  rewrite Hrecords in Hround, Hperm.
  split; [exact Hload|]. split; [exact Hrecords|].
  split; [exact Hround|exact Hperm].
Defined.

Lemma counts_rekeys_in_base2_witness :
  counts (result abc100) = inr {[0 := 60; 7 := 40]} /\
  NoDup (int_keys (raw_data (result abc100))) /\
  size ({[0 := 60; 7 := 40]} : gmap Z Z) = length (raw_data (result abc100)) /\
  total_counts {[0 := 60; 7 := 40]} = total_raw (raw_data (result abc100)).
Proof.
  assert (counts (result abc100) = inr {[0 := 60; 7 := 40]}) as Hcounts
    by (vm_compute; reflexivity).
  assert (NoDup (int_keys (raw_data (result abc100)))) as Hnd.
  { vm_compute. repeat constructor; rewrite ?elem_of_cons, ?elem_of_nil;
      intros Hin; repeat destruct Hin as [Hin|Hin]; try discriminate Hin;
      exact Hin. }
  destruct (proj1 (proj2 counts_rekeys_in_base2) (result abc100) _ Hcounts)
    as (_ & _ & Hdistinct).
  destruct (Hdistinct Hnd) as (Hsize & _ & Htotal).
  split; [exact Hcounts|]. split; [exact Hnd|]. split; [exact Hsize|exact Htotal].
Defined.

(** * The further properties at concrete inputs *)

Lemma sample_serves_each_key_in_recorded_order_witness :
  1 <= 250 /\
  @shot_distributer env 250 (_min_shots session) (_max_shots session)
    (_enable_shots_roundup session) = inr [100; 100; 50] /\
  @transpile env (_backend session) (_qubit_mapping session) "abc" = inr "abc" /\
  @qasm env "abc" = inr "abc" /\
  @consumed env session "abc" 250 !! 1%nat = Some abc100b /\
  exists s records c,
    [100; 100; 50] !! 1%nat = Some s /\
    _saved_data session !! ("abc", s) = Some records /\
    _replay_memory session !! ("abc", s) = Some c /\
    list_getitem records (c + lookups_of "abc" ("abc", s) (take 1 [100; 100; 50])) =
      Some abc100b.
Proof.
  assert (@consumed env session "abc" 250 !! 1%nat = Some abc100b) as Hjob
    by (vm_compute; reflexivity).
  split; [lia|]. split; [reflexivity|]. split; [reflexivity|].
  split; [reflexivity|]. split; [exact Hjob|].
  apply (@sample_serves_each_key_in_recorded_order env session "abc" 250
           [100; 100; 50] "abc" "abc");
    [lia|reflexivity|reflexivity|reflexivity|exact Hjob].
Defined.

Lemma sample_returns_iff_enough_records_witness :
  @__init__ env (BackendV1 100) document_session true None = inr session /\
  @reachable env session session /\
  1 <= 250 /\
  @shot_distributer env 250 (_min_shots session) (_max_shots session)
    (_enable_shots_roundup session) = inr [100; 100; 50] /\
  @transpile env (_backend session) (_qubit_mapping session) "abc" = inr "abc" /\
  @qasm env "abc" = inr "abc" /\
  ((exists served, (@sample env session "abc" 250).1 = inr served) <->
   (forall s, s ∈ [100; 100; 50] ->
      exists records c,
        _saved_data session !! ("abc", s) = Some records /\
        _replay_memory session !! ("abc", s) = Some c /\
        c + lookups_of "abc" ("abc", s) [100; 100; 50] <= Z.of_nat (length records))) /\
  (exists served, (@sample env session "abc" 250).1 = inr served).
Proof.
  split; [reflexivity|]. split; [constructor|]. split; [lia|].
  split; [reflexivity|]. split; [reflexivity|]. split; [reflexivity|].
  split.
  - apply (@sample_returns_iff_enough_records env (BackendV1 100) document_session
             true None session session "abc" 250 [100; 100; 50] "abc" "abc");
      [reflexivity|constructor|lia|reflexivity|reflexivity|reflexivity].
  - eexists. vm_compute. reflexivity.
Defined.

Lemma sample_leaves_other_keys_alone_witness :
  1 <= 100 /\
  @shot_distributer env 100 (_min_shots session) (_max_shots session)
    (_enable_shots_roundup session) = inr [100] /\
  @transpile env (_backend session) (_qubit_mapping session) "abc" = inr "abc" /\
  @qasm env "abc" = inr "abc" /\
  (("abc", 50).1 <> "abc" \/ ("abc", 50).2 ∉ [100]) /\
  _replay_memory (@sample env session "abc" 100).2 !! ("abc", 50) =
    _replay_memory session !! ("abc", 50).
Proof.
  assert (("abc", 50).1 <> "abc" \/ ("abc", 50).2 ∉ [100]) as Hother.
  { right. intros Hin. apply list_elem_of_singleton in Hin. discriminate Hin. }
  split; [lia|]. split; [reflexivity|]. split; [reflexivity|].
  split; [reflexivity|]. split; [exact Hother|].
  apply (@sample_leaves_other_keys_alone env session "abc" 100 [100] "abc" "abc");
    [lia|reflexivity|reflexivity|reflexivity|exact Hother].
Defined.

Lemma returned_job_matches_request_witness :
  @__init__ env (BackendV1 100) document_session true None = inr session /\
  @reachable env session session /\
  1 <= 250 /\
  @shot_distributer env 250 (_min_shots session) (_max_shots session)
    (_enable_shots_roundup session) = inr [100; 100; 50] /\
  @transpile env (_backend session) (_qubit_mapping session) "abc" = inr "abc" /\
  @qasm env "abc" = inr "abc" /\
  (@sample env session "abc" 250).1 =
    inr (job_processor [abc100; abc100b; abc50] None) /\
  chunk_jobs (job_processor [abc100; abc100b; abc50] None) =
    @consumed env session "abc" 250 /\
  job_qubit_mapping (job_processor [abc100; abc100b; abc50] None) =
    _qubit_mapping session /\
  Forall2 (fun job s => circuit_str job = "abc" /\ n_shots job = s)
          (chunk_jobs (job_processor [abc100; abc100b; abc50] None))
          [100; 100; 50].
Proof.
  assert ((@sample env session "abc" 250).1 =
            inr (job_processor [abc100; abc100b; abc50] None)) as Hserved
    by (vm_compute; reflexivity).
  split; [reflexivity|]. split; [constructor|]. split; [lia|].
  split; [reflexivity|]. split; [reflexivity|]. split; [reflexivity|].
  split; [exact Hserved|].
  apply (@returned_job_matches_request env (BackendV1 100) document_session
           true None session session "abc" 250 [100; 100; 50] "abc" "abc");
    [reflexivity|constructor|lia|reflexivity|reflexivity|reflexivity|exact Hserved].
Defined.

Lemma replay_reproduces_recording_witness :
  @__init__ env (BackendV1 100) document_session true None = inr session /\
  Forall2 (fun job call =>
             @single_chunk_call env session (circuit_str job) (n_shots job) call)
          (job_dicts document_session)
          [("abc", 100); ("abc", 50); ("abc", 100)] /\
  (@run env session [("abc", 100); ("abc", 50); ("abc", 100)]).*1 =
    (fun job => inr (job_processor [job] (_qubit_mapping session)))
      <$> job_dicts document_session /\
  forall final,
    last (@run env session [("abc", 100); ("abc", 50); ("abc", 100)]) = Some final ->
    forall key records,
      _load_data document_session !! key = Some records ->
      _replay_memory final.2 !! key = Some (Z.of_nat (length records)).
Proof.
  assert (Forall2 (fun job call =>
             @single_chunk_call env session (circuit_str job) (n_shots job) call)
            (job_dicts document_session)
            [("abc", 100); ("abc", 50); ("abc", 100)]) as Hcalls.
  { repeat constructor; cbn; try lia; exists "abc"; split; reflexivity. }
  split; [reflexivity|]. split; [exact Hcalls|].
  apply (@replay_reproduces_recording env (BackendV1 100) document_session
           true None session); [reflexivity|exact Hcalls].
Defined.

Lemma counts_of_fixed_width_bitstrings_witness :
  (0 < 3)%nat /\
  Forall (fun kv => plain_bits kv.1 = true /\ String.length kv.1 = 3%nat)
         (raw_data (result abc100)) /\
  NoDup (raw_data (result abc100)).*1 /\
  exists m,
    counts (result abc100) = inr m /\
    size m = length (raw_data (result abc100)) /\
    total_counts m = total_raw (raw_data (result abc100)) /\
    forall s v, (s, v) ∈ raw_data (result abc100) ->
      m !! binary_value 0 s = Some v /\
      0 <= binary_value 0 s < 2 ^ Z.of_nat 3.
Proof.
  assert (Forall (fun kv => plain_bits kv.1 = true /\ String.length kv.1 = 3%nat)
            (raw_data (result abc100))) as Hplain
    by (repeat constructor).
  assert (NoDup (raw_data (result abc100)).*1) as Hnd.
  { cbn. repeat constructor; rewrite ?elem_of_cons, ?elem_of_nil;
      intros Hin; repeat destruct Hin as [Hin|Hin]; try discriminate Hin;
      exact Hin. }
  split; [lia|]. split; [exact Hplain|]. split; [exact Hnd|].
  apply (counts_of_fixed_width_bitstrings (result abc100) 3);
    [lia|exact Hplain|exact Hnd].
Defined.

Lemma counts_keeps_size_iff_keys_distinct_witness :
  counts padded = inr {[1 := 4]} /\
  (size ({[1%Z := 4%Z]} : gmap Z Z) <= length (raw_data padded))%nat /\
  (size ({[1%Z := 4%Z]} : gmap Z Z) = length (raw_data padded) <->
   NoDup (int_keys (raw_data padded))).
Proof.
  assert (counts padded = inr {[1 := 4]}) as Hm by (vm_compute; reflexivity).
  split; [exact Hm|].
  apply (counts_keeps_size_iff_keys_distinct padded {[1 := 4]} Hm).
Defined.

Lemma counts_merges_zero_padded_keys_witness :
  plain_bits "1" = true /\ "1" <> EmptyString /\
  ("1", 4) ∈ raw_data padded /\
  ("01", 3) ∈ raw_data padded /\
  counts padded = inr {[1 := 4]} /\
  int_base2 "01" = int_base2 "1" /\
  (size ({[1%Z := 4%Z]} : gmap Z Z) < length (raw_data padded))%nat.
Proof.
  assert (("1", 4) ∈ raw_data padded) as Hin1
    by (apply elem_of_cons; right; apply elem_of_cons; left; reflexivity).
  assert (("01", 3) ∈ raw_data padded) as Hin2
    by (apply elem_of_cons; left; reflexivity).
  assert (counts padded = inr {[1 := 4]}) as Hm by (vm_compute; reflexivity).
  split; [reflexivity|]. split; [discriminate|]. split; [exact Hin1|].
  split; [exact Hin2|]. split; [exact Hm|].
  apply (counts_merges_zero_padded_keys padded {[1 := 4]} "1" 4 3);
    [reflexivity|discriminate|exact Hin1|exact Hin2|exact Hm].
Defined.
